(** * dbpf.py: reading a DBPF container (header, index table, records)

    A shallow embedding of [dbpf.py].  The Python builtins the module relies
    on ([str], [float], [int], true division, [range], [struct], file
    objects) are modelled first, then the module itself, then the
    properties of the module. *)

From Stdlib Require Import ZArith List String Ascii Bool Lia.
From Stdlib Require Import Strings.Byte.
From Stdlib Require Import Decimal DecimalString DecimalFacts DecimalZ DecimalN DecimalPos.
From Stdlib Require Import SpecFloat.
Import ListNotations.

#[local] Open Scope Z_scope.

(** ** Python builtins *)

Module Py.

(** The exception classes that can escape from the module: its own two
    classes and the builtin ones raised by the operations it uses. *)
Inductive exn : Type :=
| DBPFException (msg : string)
| ArgumentException (msg : string)
| StructError          (* struct.error *)
| ZeroDivisionError
| ValueError
| OverflowError
| OSError
| TypeError.

Inductive result (A : Type) : Type :=
| Ok (a : A)
| Raise (e : exn).
Arguments Ok {A} a.
Arguments Raise {A} e.

(** The exception classes defined by [dbpf.py] itself; every other class is
    a builtin of the language or of its standard library. *)
Definition module_defined (e : exn) : bool :=
  match e with
  | DBPFException _ | ArgumentException _ => true
  | _ => false
  end.

Definition builtin (e : exn) : bool := negb (module_defined e).

(** *** float: IEEE 754 binary64 *)

Definition prec : Z := 53.
Definition emax : Z := 1024.
Definition float : Type := spec_float.

(** A number: an int or a float. *)
Inductive num : Type :=
| Int (z : Z)
| Float (f : float).

(** An integer as an exact (not normalised) mantissa with exponent 0. *)
Definition Z2SF (z : Z) : float :=
  match z with
  | Z0 => S754_zero false
  | Zpos p => S754_finite false p 0
  | Zneg p => S754_finite true p 0
  end.

(** The binary64 number nearest to [n / d] (ties to even). *)
Definition round_quot (n d : Z) : float := SFdiv prec emax (Z2SF n) (Z2SF d).

(** [a / b] on two ints: the correctly rounded quotient. *)
Definition int_truediv (a b : Z) : result float :=
  if b =? 0 then Raise ZeroDivisionError
  else match round_quot a b with
       | S754_infinity _ => Raise OverflowError
       | f => Ok f
       end.

(** [int(f)]: truncation toward zero. *)
Definition int_of_float (f : float) : result Z :=
  match f with
  | S754_nan => Raise ValueError
  | S754_infinity _ => Raise OverflowError
  | S754_zero _ => Ok 0
  | S754_finite s m e => Ok (cond_Zopp s (Z.shiftl (Zpos m) e))
  end.

(** *** str and float on strings *)

(** [str(z)] on an int. *)
Definition str (z : Z) : string := NilZero.string_of_int (Z.to_int z).

(** [sep.join(l)] *)
Fixpoint join (sep : string) (l : list string) : string :=
  match l with
  | [] => EmptyString
  | [s] => s
  | s :: l' => (s ++ sep ++ join sep l')%string
  end.

(** [s.partition('.')] without the separator: the text before the first
    dot and, when there is a dot, the text after it. *)
Fixpoint partition_dot (s : string) : string * option string :=
  match s with
  | EmptyString => (EmptyString, None)
  | String c s' =>
      if Ascii.eqb c "."%char then (EmptyString, Some s')
      else let (a, b) := partition_dot s' in (String c a, b)
  end.

(** The value of an unsigned decimal literal [digits[.digits]] as a
    fraction: numerator and a power of ten. *)
Definition decimal_fraction (s : string) : option (Z * Z) :=
  let (ip, rest) := partition_dot s in
  let fp := match rest with Some t => t | None => EmptyString end in
  match ip, fp with
  | EmptyString, EmptyString => None
  | _, _ =>
      match NilEmpty.uint_of_string ip, NilEmpty.uint_of_string fp with
      | Some i, Some f =>
          let scale := 10 ^ Z.of_nat (nb_digits f) in
          Some (Z.of_uint i * scale + Z.of_uint f, scale)
      | _, _ => None
      end
  end.

(** [float(s)] on the literals [[-]digits[.digits]]: the nearest binary64
    number.  The other spellings [float] accepts (exponents, [inf], [nan],
    blanks, underscores, a leading plus) are not covered; none of them is a
    [str] of two ints joined by a dot. *)
Definition float_of_str (s : string) : result float :=
  let (neg, body) :=
    match s with
    | String c t => if Ascii.eqb c "-"%char then (true, t) else (false, s)
    | EmptyString => (false, s)
    end in
  match decimal_fraction body with
  | Some (n, d) =>
      let f := round_quot n d in
      Ok (if neg then SFopp f else f)
  | None => Raise ValueError
  end.

(** *** range *)

(** [len(range(start, stop, step))] for a nonzero step. *)
Definition range_len (start stop step : Z) : Z :=
  if 0 <? step then
    if start <? stop then (stop - start - 1) / step + 1 else 0
  else
    if stop <? start then (start - stop - 1) / (- step) + 1 else 0.

(** [range(start, stop, step)] as the list of its elements. *)
Definition range (start stop step : Z) : result (list Z) :=
  if step =? 0 then Raise ValueError
  else Ok (map (fun k => start + Z.of_nat k * step)
               (seq 0 (Z.to_nat (range_len start stop step)))).

End Py.
Export Py.

(** ** The struct module, for the formats the templates use *)

Module Struct.

(** One entry of a template: the byte order mark, [Ns], [I], [H] or [Q]. *)
Inductive fmt : Type :=
| LittleEndian           (* '<' *)
| Bytes (n : nat)        (* 'Ns' *)
| UInt32                 (* 'I' *)
| UInt16                 (* 'H' *)
| UInt64.                (* 'Q' *)

Inductive value : Type :=
| VBytes (b : list byte)
| VInt (z : Z).

Definition width (c : fmt) : nat :=
  match c with
  | LittleEndian => 0
  | Bytes n => n
  | UInt32 => 4
  | UInt16 => 2
  | UInt64 => 8
  end.

(** [Struct.size]; with ['<'] there is no padding. *)
Definition size (f : list fmt) : nat := list_sum (map width f).

(** Little-endian unsigned integer held by a byte string. *)
Fixpoint le_uint (b : list byte) : Z :=
  match b with
  | [] => 0
  | x :: r => Z.of_N (Byte.to_N x) + 256 * le_uint r
  end.

Definition decode (c : fmt) (b : list byte) : value :=
  match c with
  | Bytes _ => VBytes b
  | _ => VInt (le_uint b)
  end.

Fixpoint unpack_fields (f : list fmt) (buf : list byte) : list value :=
  match f with
  | [] => []
  | LittleEndian :: f' => unpack_fields f' buf
  | c :: f' =>
      decode c (firstn (width c) buf) :: unpack_fields f' (skipn (width c) buf)
  end.

(** [Struct.unpack]: the buffer must have exactly [size] bytes. *)
Definition unpack (f : list fmt) (buf : list byte) : result (list value) :=
  if Nat.eqb (List.length buf) (size f) then Ok (unpack_fields f buf)
  else Raise StructError.

End Struct.

(** ** Binary file objects *)

Module File.

(** A binary file opened for reading, as [open(name, 'rb')] returns it (a
    buffered reader over a file of the file system): its bytes, the read
    cursor, and [room], which places the largest offset of the file system
    (see [max_offset]). *)
Record file : Type := { contents : list byte; cursor : Z; room : N }.

(** The largest position the file system of the file takes in a seek (on
    Linux, [s_maxbytes]: 0xffffffff on FAT, 0xffffffff000 on ext4, 2^63 - 1
    on XFS or tmpfs).  No file is larger than it; the file systems modelled
    are those where it is 2^32 - 1 or more, and [room] is what it has above
    both bounds. *)
Definition max_offset (fd : file) : Z :=
  Z.max (Z.of_nat (List.length (contents fd))) (2 ^ 32 - 1) + Z.of_N (room fd).

(** Operations on the file: a result, or an exception, and the file after. *)
Definition M (A : Type) : Type := file -> result A * file.

Definition ret {A} (a : A) : M A := fun fd => (Ok a, fd).
Definition throw {A} (e : exn) : M A := fun fd => (Raise e, fd).
Definition bind {A B} (m : M A) (k : A -> M B) : M B :=
  fun fd =>
    match m fd with
    | (Ok a, fd') => k a fd'
    | (Raise e, fd') => (Raise e, fd')
    end.
Definition lift {A} (r : result A) : M A := fun fd => (r, fd).

(** [fd.seek(n)]: absolute.  A position that does not fit a signed 64-bit
    offset is refused by the conversion ([ValueError]); a negative one and
    one above the largest offset of the file system are refused by the
    system ([OSError]); any other is taken, also past the end of the file. *)
Definition seek (n : Z) : M unit :=
  fun fd =>
    if (n <? - 2 ^ 63) || (2 ^ 63 <=? n) then (Raise ValueError, fd)
    else if (n <? 0) || (max_offset fd <? n) then (Raise OSError, fd)
    else (Ok tt, {| contents := contents fd; cursor := n; room := room fd |}).

(** [fd.read(n)]: up to [n] bytes from the cursor, fewer (possibly none) at
    the end of the file; all the remaining bytes when [n] is -1; a length
    below -1 is refused. *)
Definition read (n : Z) : M (list byte) :=
  fun fd =>
    if n <? -1 then (Raise ValueError, fd)
    else
      let rest := skipn (Z.to_nat (cursor fd)) (contents fd) in
      let got := if n <? 0 then rest else firstn (Z.to_nat n) rest in
      (Ok got, {| contents := contents fd;
                  cursor := cursor fd + Z.of_nat (List.length got);
                  room := room fd |}).

End File.
Export File.

Declare Scope file_scope.
Delimit Scope file_scope with file.
Notation "x <- m ;; k" := (bind m (fun x => k))
  (at level 61, m at next level, right associativity) : file_scope.
Notation "m ;;; k" := (bind m (fun _ => k))
  (at level 61, right associativity) : file_scope.


(** ** The templates and the named tuples of dbpf.py *)

Import Struct.

Definition headerTemplate : list (string * fmt) :=
  [ ("byteOrder", LittleEndian);
    ("fileIdentifier", Bytes 4);
    ("fileMajor", UInt32);
    ("fileMinor", UInt32);
    ("userMajor", UInt32);
    ("userMinor", UInt32);
    ("flags", UInt32);
    ("creationTime", UInt32);
    ("updatedTime", UInt32);
    ("indexRecordMajorVersion", UInt32);
    ("indexRecordEntryCount", UInt32);
    ("indexOffsetBytesV1", UInt32);
    ("indexRecordSizeBytes", UInt32);
    ("holeIndexEntryCount", UInt32);
    ("holeIndexOffset", UInt32);
    ("holeIndexSize", UInt32);
    ("indexMinorVersion", UInt32);
    ("indexOffsetBytes", UInt64);
    ("reserved", Bytes 24) ]%string.

Definition indexEntryTemplate : list (string * fmt) :=
  [ ("byteOrder", LittleEndian);
    ("mType", UInt32);
    ("mGroup", UInt32);
    ("mInstanceEx", UInt32);
    ("mInstance", UInt32);
    ("mnPosition", UInt32);
    ("mnSize", UInt32);
    ("mnSizeDecompressed", UInt32);
    ("mnCompressionType", UInt16);
    ("mnCommitted", UInt16) ]%string.

Definition HeaderStruct : list fmt := map snd headerTemplate.
Definition IndexEntryStruct : list fmt := map snd indexEntryTemplate.

Module Header.
Record t : Type := {
  fileIdentifier : list byte;
  fileMajor : Z;
  fileMinor : Z;
  userMajor : Z;
  userMinor : Z;
  flags : Z;
  creationTime : Z;
  updatedTime : Z;
  indexRecordMajorVersion : Z;
  indexRecordEntryCount : Z;
  indexOffsetBytesV1 : Z;
  indexRecordSizeBytes : Z;
  holeIndexEntryCount : Z;
  holeIndexOffset : Z;
  holeIndexSize : Z;
  indexMinorVersion : Z;
  indexOffsetBytes : Z;
  reserved : list byte }.

(** [Header( *headerData )]: one positional argument per field. *)
Definition new (vals : list value) : result t :=
  match vals with
  | [VBytes a; VInt b; VInt c; VInt d; VInt e; VInt f; VInt g; VInt h;
     VInt i; VInt j; VInt k; VInt l; VInt m; VInt n; VInt o; VInt p;
     VInt q; VBytes r] =>
      Ok (Build_t a b c d e f g h i j k l m n o p q r)
  | _ => Raise TypeError
  end.
End Header.

Module Index.
Record t : Type := { version : num; count : Z; offset : Z; size : Z }.
End Index.

Module IndexEntry.
Record t : Type := {
  mType : Z;
  mGroup : Z;
  mInstanceEx : Z;
  mInstance : Z;
  mnPosition : Z;
  mnSize : Z;
  mnSizeDecompressed : Z;
  mnCompressionType : Z;
  mnCommitted : Z }.

(** [IndexEntry( *indexEntryData )] *)
Definition new (vals : list value) : result t :=
  match vals with
  | [VInt a; VInt b; VInt c; VInt d; VInt e; VInt f; VInt g; VInt h; VInt i] =>
      Ok (Build_t a b c d e f g h i)
  | _ => Raise TypeError
  end.
End IndexEntry.

Module TGI.
(** Modelled from the spec: the [tgi] module is not part of the sources;
    its [TGI] is the resource key, an opaque value built from the type, the
    group and the (low) instance of an entry.  The name [tgi] is bound by the
    script entry point ([import tgi] under [__main__]), which is how the
    class is used. *)
Record t : Type := { type : Z; group : Z; instance : Z }.
Definition TGI (ty gr inst : Z) : t := Build_t ty gr inst.
End TGI.

Module Record_.
Record t : Type := { tgi : TGI.t; offset : Z; length : Z; raw : list byte }.
End Record_.

Module Util.
(** [float('.'.join([str(major), str(minor)]))] *)
Definition version (major minor : Z) : result float :=
  float_of_str (join "." [str major; str minor]).
End Util.

(** ** class DBPF *)

Module DBPF.

#[local] Open Scope file_scope.

(** The object: the file itself is the state threaded by [M]. *)
Record t : Type := { verbose : bool; header : Header.t }.

Definition magic : list byte := [x44; x42; x50; x46].   (* b'DBPF' *)

Definition bytes_eqb (a b : list byte) : bool :=
  if list_eq_dec Byte.byte_eq_dec a b then true else false.

(** [__init__] *)
Definition __init__ (verbose : bool) : M t :=
  seek 0 ;;;
  buf <- read (Z.of_nat (Struct.size HeaderStruct)) ;;
  headerData <- lift (unpack HeaderStruct buf) ;;
  hdr <- lift (Header.new headerData) ;;
  if bytes_eqb (Header.fileIdentifier hdr) magic
  then ret {| verbose := verbose; header := hdr |}
  else throw (DBPFException "Not a DBPF file").

Definition version (self : t) : result float :=
  let hdr := header self in
  Util.version (Header.fileMajor hdr) (Header.fileMinor hdr).

Definition user_version (self : t) : result float :=
  let hdr := header self in
  Util.version (Header.userMajor hdr) (Header.userMinor hdr).

Definition flags (self : t) : Z := Header.flags (header self).
Definition ctime (self : t) : Z := Header.creationTime (header self).
Definition mtime (self : t) : Z := Header.updatedTime (header self).

Definition index (self : t) : result Index.t :=
  let hdr := header self in
  let offset :=
    if Header.fileMajor hdr =? 1 then Header.indexOffsetBytesV1 hdr
    else Header.indexOffsetBytes hdr in
  match Util.version (Header.indexRecordMajorVersion hdr)
                     (Header.indexMinorVersion hdr) with
  | Ok v =>
      Ok {| Index.version := Float v;
            Index.count := Header.indexRecordEntryCount hdr;
            Index.offset := offset + 4;
            Index.size := Header.indexRecordSizeBytes hdr - 4 |}
  | Raise e => Raise e
  end.

Definition holes (self : t) : Index.t :=
  let hdr := header self in
  {| Index.version := Int 0;
     Index.count := Header.holeIndexEntryCount hdr;
     Index.offset := Header.holeIndexOffset hdr;
     Index.size := Header.holeIndexSize hdr |}.

(** [int(idx.size / idx.count)]; the message printed when [verbose] is set
    is not modelled. *)
Definition _index_width (self : t) : result Z :=
  match index self with
  | Ok idx =>
      match int_truediv (Index.size idx) (Index.count idx) with
      | Ok q => int_of_float q
      | Raise e => Raise e
      end
  | Raise e => Raise e
  end.

(** A [for] loop that appends one result per element. *)
Fixpoint for_each {A B} (body : A -> M B) (l : list A) : M (list B) :=
  match l with
  | [] => ret []
  | a :: l' => b <- body a ;; bs <- for_each body l' ;; ret (b :: bs)
  end.

Definition read_entry (width : Z) : M IndexEntry.t :=
  buf <- read width ;;
  indexEntryData <- lift (unpack IndexEntryStruct buf) ;;
  lift (IndexEntry.new indexEntryData).

Definition _index_entries (self : t) : M (list IndexEntry.t) :=
  ind <- lift (index self) ;;
  let offset := Index.offset ind in
  let length := Index.size ind in
  width <- lift (_index_width self) ;;
  seek offset ;;;
  steps <- lift (range 0 length width) ;;
  for_each (fun _ => read_entry width) steps.

Definition read_record (idx_entry : IndexEntry.t) : M Record_.t :=
  let mnSize := IndexEntry.mnSizeDecompressed idx_entry in
  let mnPosition := IndexEntry.mnPosition idx_entry in
  seek mnPosition ;;;
  raw <- read mnSize ;;
  ret {| Record_.raw := raw;
         Record_.tgi := TGI.TGI (IndexEntry.mType idx_entry)
                                (IndexEntry.mGroup idx_entry)
                                (IndexEntry.mInstance idx_entry);
         Record_.offset := mnPosition;
         Record_.length := mnSize |}.

Definition records (self : t) : M (list Record_.t) :=
  entries <- _index_entries self ;;
  for_each read_record entries.

End DBPF.

(** ** Sample containers *)

Definition zeros (n : nat) : list byte := repeat x00 n.

(** [n] as [w] little-endian bytes. *)
Fixpoint le_bytes (w : nat) (n : Z) : list byte :=
  match w with
  | O => []
  | S w' =>
      match Byte.of_N (Z.to_N (n mod 256)) with
      | Some b => b :: le_bytes w' (n / 256)
      | None => x00 :: le_bytes w' (n / 256)
      end
  end.

(** A 96-byte header with the given magic and fields, the others zero. *)
Definition mk_header (id : list byte) (major minor count offV1 size offV2 : Z)
  : list byte :=
  id ++ le_bytes 4 major ++ le_bytes 4 minor ++ zeros 20
     ++ le_bytes 4 1 (* index major *) ++ le_bytes 4 count
     ++ le_bytes 4 offV1 ++ le_bytes 4 size ++ zeros 12
     ++ le_bytes 4 0 ++ le_bytes 8 offV2 ++ zeros 24.

Definition mk_entry (ty gr inst pos sz dsz : Z) : list byte :=
  le_bytes 4 ty ++ le_bytes 4 gr ++ le_bytes 4 0 ++ le_bytes 4 inst
    ++ le_bytes 4 pos ++ le_bytes 4 sz ++ le_bytes 4 dsz
    ++ le_bytes 2 0 ++ le_bytes 2 1.

(** The file of bytes [b], just opened, on a file system of the least
    largest offset (2^32 - 1 for a file below that size). *)
Definition open_ (b : list byte) : file :=
  {| contents := b; cursor := 0; room := 0 |}.

(** ** Notions used to state the properties *)

(** The decimal digits of a non-negative int, and how many there are. *)
Definition digits (z : Z) : uint := N.to_uint (Z.to_N z).
Definition ndigits (z : Z) : Z := Z.of_nat (nb_digits (digits z)).

(** The byte layout of the header and of an index entry: the field held
    by [w] bytes at offset [off], little-endian. *)
Definition field (b : list byte) (off w : nat) : Z :=
  le_uint (firstn w (skipn off b)).

Definition header_of_bytes (b : list byte) : Header.t :=
  {| Header.fileIdentifier := firstn 4 b;
     Header.fileMajor := field b 4 4;
     Header.fileMinor := field b 8 4;
     Header.userMajor := field b 12 4;
     Header.userMinor := field b 16 4;
     Header.flags := field b 20 4;
     Header.creationTime := field b 24 4;
     Header.updatedTime := field b 28 4;
     Header.indexRecordMajorVersion := field b 32 4;
     Header.indexRecordEntryCount := field b 36 4;
     Header.indexOffsetBytesV1 := field b 40 4;
     Header.indexRecordSizeBytes := field b 44 4;
     Header.holeIndexEntryCount := field b 48 4;
     Header.holeIndexOffset := field b 52 4;
     Header.holeIndexSize := field b 56 4;
     Header.indexMinorVersion := field b 60 4;
     Header.indexOffsetBytes := field b 64 8;
     Header.reserved := firstn 24 (skipn 72 b) |}.

Definition entry_of_bytes (b : list byte) : IndexEntry.t :=
  {| IndexEntry.mType := field b 0 4;
     IndexEntry.mGroup := field b 4 4;
     IndexEntry.mInstanceEx := field b 8 4;
     IndexEntry.mInstance := field b 12 4;
     IndexEntry.mnPosition := field b 16 4;
     IndexEntry.mnSize := field b 20 4;
     IndexEntry.mnSizeDecompressed := field b 24 4;
     IndexEntry.mnCompressionType := field b 28 2;
     IndexEntry.mnCommitted := field b 30 2 |}.

Definition unsigned (bits : Z) (z : Z) : Prop := 0 <= z < 2 ^ bits.

Definition header_in_range (h : Header.t) : Prop :=
  unsigned 32 (Header.fileMajor h) /\ unsigned 32 (Header.fileMinor h) /\
  unsigned 32 (Header.userMajor h) /\ unsigned 32 (Header.userMinor h) /\
  unsigned 32 (Header.indexRecordMajorVersion h) /\
  unsigned 32 (Header.indexRecordEntryCount h) /\
  unsigned 32 (Header.indexOffsetBytesV1 h) /\
  unsigned 32 (Header.indexRecordSizeBytes h) /\
  unsigned 32 (Header.indexMinorVersion h) /\
  unsigned 64 (Header.indexOffsetBytes h).

Definition entry_in_range (e : IndexEntry.t) : Prop :=
  unsigned 32 (IndexEntry.mnPosition e) /\ unsigned 32 (IndexEntry.mnSizeDecompressed e).

(** The file of bytes [data] with the cursor at [c] and [r] of room. *)
Definition at_ (data : list byte) (c : Z) (r : N) : file :=
  {| contents := data; cursor := c; room := r |}.

(** The bytes a [read(n)] returns with the cursor at [c]. *)
Definition read_bytes (data : list byte) (c n : Z) : list byte :=
  let rest := skipn (Z.to_nat c) data in
  if n <? 0 then rest else firstn (Z.to_nat n) rest.


(** The record [records] builds for an entry: the bytes a read of
    [mnSizeDecompressed] bytes at [mnPosition] returns, with the key, the
    position and the declared length of the entry. *)
Definition record_of (data : list byte) (e : IndexEntry.t) : Record_.t :=
  {| Record_.tgi := TGI.TGI (IndexEntry.mType e) (IndexEntry.mGroup e)
                            (IndexEntry.mInstance e);
     Record_.offset := IndexEntry.mnPosition e;
     Record_.length := IndexEntry.mnSizeDecompressed e;
     Record_.raw := read_bytes data (IndexEntry.mnPosition e)
                               (IndexEntry.mnSizeDecompressed e) |}.

(** ** Sample containers, continued *)

(** The object [DBPF(fd)] builds from a source that passes the checks. *)
Definition open_dbpf (b : list byte) : DBPF.t :=
  {| DBPF.verbose := false; DBPF.header := header_of_bytes (firstn 96 b) |}.

(** The binary64 number written [2.1]: 0x4000CCCCCCCCCCCD. *)
Definition float_2_1 : float := S754_finite false 4728779608739021 (-51).

(** The binary64 number [3.0]. *)
Definition float_3_0 : float := S754_finite false 6755399441055744 (-51).

(** Format 1.1, one entry, index located by the legacy offset field. *)
Definition container_v1 : list byte :=
  mk_header DBPF.magic 1 1 1 96 36 7
    ++ zeros 4 ++ mk_entry 10 20 30 132 5 5 ++ [x61; x62; x63; x64; x65].

(** Format 2.1, two entries, index located by the 64-bit offset field. *)
Definition container_v2 : list byte :=
  mk_header DBPF.magic 2 1 2 7 68 96
    ++ zeros 4 ++ mk_entry 10 20 30 164 3 3 ++ mk_entry 11 21 31 167 4 4
    ++ [x61; x62; x63; x64; x65; x66; x67].

(** No entry: entry count 0. *)
Definition container_empty : list byte :=
  mk_header DBPF.magic 2 1 0 0 4 96 ++ zeros 4.

(** Entry count 2 and a declared size of 69: an index of 65 bytes. *)
Definition container_irregular : list byte :=
  mk_header DBPF.magic 2 1 2 0 69 96
    ++ zeros 4 ++ mk_entry 10 20 30 0 0 0 ++ mk_entry 11 21 31 0 0 0
    ++ mk_entry 12 22 32 0 0 0.

(** One entry whose payload window (position 132, 50 bytes) passes the end
    of the 137-byte source. *)
Definition container_truncated : list byte :=
  mk_header DBPF.magic 2 1 1 0 36 96
    ++ zeros 4 ++ mk_entry 10 20 30 132 50 50 ++ [x61; x62; x63; x64; x65].

(** A declared index size of 0. *)
Definition container_tiny : list byte :=
  mk_header DBPF.magic 2 1 1 0 0 96 ++ zeros 4.




(** Four bytes that are not the magic, and nothing else. *)
Definition short_source : list byte := [x41; x42; x43; x44].

(** 96 bytes that do not start with the magic. *)
Definition foreign_source : list byte :=
  mk_header [x41; x42; x43; x44] 2 1 0 0 4 96.

(** ** Packing, the inverse of unpacking *)

(** The bytes [struct.pack] writes for one value under one format code. *)
Definition encode (c : fmt) (v : value) : list byte :=
  match v with
  | VBytes b => b
  | VInt z => le_bytes (width c) z
  end.

(** A value that a format code can hold: a byte string of the length of
    the code, or an unsigned int of its width. *)
Definition fits (c : fmt) (v : value) : Prop :=
  match c, v with
  | LittleEndian, _ => False
  | Bytes n, VBytes b => List.length b = n
  | Bytes _, VInt _ => False
  | _, VBytes _ => False
  | _, VInt z => 0 <= z < 2 ^ (8 * Z.of_nat (width c))
  end.

Fixpoint pack_fields (f : list fmt) (vals : list value) : list byte :=
  match f, vals with
  | c :: f', v :: vs => encode c v ++ pack_fields f' vs
  | _, _ => []
  end.

(** The fields of the two named tuples, in order, as values. *)
Definition header_values (h : Header.t) : list value :=
  [ VBytes (Header.fileIdentifier h); VInt (Header.fileMajor h);
    VInt (Header.fileMinor h); VInt (Header.userMajor h);
    VInt (Header.userMinor h); VInt (Header.flags h);
    VInt (Header.creationTime h); VInt (Header.updatedTime h);
    VInt (Header.indexRecordMajorVersion h);
    VInt (Header.indexRecordEntryCount h);
    VInt (Header.indexOffsetBytesV1 h); VInt (Header.indexRecordSizeBytes h);
    VInt (Header.holeIndexEntryCount h); VInt (Header.holeIndexOffset h);
    VInt (Header.holeIndexSize h); VInt (Header.indexMinorVersion h);
    VInt (Header.indexOffsetBytes h); VBytes (Header.reserved h) ].

Definition entry_values (e : IndexEntry.t) : list value :=
  [ VInt (IndexEntry.mType e); VInt (IndexEntry.mGroup e);
    VInt (IndexEntry.mInstanceEx e); VInt (IndexEntry.mInstance e);
    VInt (IndexEntry.mnPosition e); VInt (IndexEntry.mnSize e);
    VInt (IndexEntry.mnSizeDecompressed e);
    VInt (IndexEntry.mnCompressionType e); VInt (IndexEntry.mnCommitted e) ].

(** The format codes after the byte order mark. *)
Definition codes (f : list fmt) : list fmt := tl f.

(** A header, an entry, whose every field fits its format code. *)
Definition header_fits (h : Header.t) : Prop :=
  Forall2 fits (codes HeaderStruct) (header_values h).

Definition entry_fits (e : IndexEntry.t) : Prop :=
  Forall2 fits (codes IndexEntryStruct) (entry_values e).

Definition pack_header (h : Header.t) : list byte :=
  pack_fields (codes HeaderStruct) (header_values h).


(** The header block of [container_v2] alone. *)
Definition header_block_v2 : list byte := firstn 96 container_v2.

(** Entry count 5 and a declared size of 4: an index of 0 bytes. *)
Definition container_undersized : list byte :=
  mk_header DBPF.magic 2 1 5 0 4 96 ++ zeros 4.

(** The same with the index at 2^44, above the largest offset of the file
    system. *)
Definition container_undersized_far : list byte :=
  mk_header DBPF.magic 2 1 5 0 4 (2 ^ 44) ++ zeros 4.

(** [str] of an int refuses, with [ValueError], an int of more digits than
    [sys.get_int_max_str_digits()], 4300 unless it is changed; the ints it
    converts under that limit. *)
Definition max_str_digits : Z := 4300.

Definition str_convertible (z : Z) : Prop := Z.abs z < 10 ^ max_str_digits.

(** Closed goals on the sample containers are settled by evaluation. *)
Ltac by_evaluation := vm_compute; first [reflexivity | lia | discriminate].

(** ** Rounding: [int(a / b)] truncates the exact quotient *)

(** [digits2_pos p] is the number of bits of [p]. *)
Lemma digits2_bounds (p : positive) :
  2 ^ (Zpos (digits2_pos p) - 1) <= Zpos p < 2 ^ Zpos (digits2_pos p).
Proof.
  induction p as [p IH | p IH | ]; cbn [digits2_pos].
  - rewrite Pos2Z.inj_succ, Z.pow_succ_r by lia.
    replace (Z.succ (Zpos (digits2_pos p)) - 1)
      with (Z.succ (Zpos (digits2_pos p) - 1)) by lia.
    rewrite Z.pow_succ_r by lia. lia.
  - rewrite Pos2Z.inj_succ, Z.pow_succ_r by lia.
    replace (Z.succ (Zpos (digits2_pos p)) - 1)
      with (Z.succ (Zpos (digits2_pos p) - 1)) by lia.
    rewrite Z.pow_succ_r by lia. lia.
  - cbn. lia.
Qed.

Lemma digits2_unique (p : positive) (d : Z) :
  2 ^ (d - 1) <= Zpos p < 2 ^ d -> 0 < d -> Zpos (digits2_pos p) = d.
Proof.
  intros [Hlo Hhi] Hd.
  pose proof (digits2_bounds p) as [Blo Bhi].
  destruct (Z.lt_trichotomy (Zpos (digits2_pos p)) d) as [H | [H | H]];
    [ | exact H | ].
  - assert (2 ^ Zpos (digits2_pos p) <= 2 ^ (d - 1))
      by (apply Z.pow_le_mono_r; lia).
    lia.
  - assert (2 ^ d <= 2 ^ (Zpos (digits2_pos p) - 1))
      by (apply Z.pow_le_mono_r; lia).
    lia.
Qed.

(** An integer [m] within one half of [a * T / b] has the same quotient by
    [T] as [a] has by [b], as soon as [b < 2 * T]. *)
Lemma nearest_trunc (a b T m : Z) :
  0 <= a -> 0 < b -> 0 < T -> b < 2 * T ->
  2 * m * b - b <= 2 * (a * T) <= 2 * m * b + b ->
  m / T = a / b.
Proof.
  intros Ha Hb HT HbT [Hlo Hhi].
  pose proof (Z.div_mod a b ltac:(lia)) as Hdm.
  pose proof (Z.mod_pos_bound a b Hb) as Hr.
  set (k := a / b) in *. set (r := a mod b) in *.
  symmetry. apply Z.div_unique with (r := m - T * k).
  - left. split; nia.
  - lia.
Qed.

(** What the location computed by a division tells about the remainder. *)
Lemma new_location_spec (b r : Z) :
  0 <= r < b ->
  match new_location b r with
  | loc_Exact => r = 0
  | loc_Inexact Lt => 0 < 2 * r < b
  | loc_Inexact Eq => 2 * r = b
  | loc_Inexact Gt => b < 2 * r
  end.
Proof.
  intros Hr. unfold new_location, new_location_even, new_location_odd.
  destruct (Z.even b) eqn:Eb.
  - destruct (Z.eqb_spec r 0); [assumption|].
    destruct (Z.compare_spec (2 * r) b); lia.
  - destruct (Z.eqb_spec r 0); [assumption|].
    assert (Ob : Z.odd b = true) by (rewrite <- Z.negb_even, Eb; reflexivity).
    apply Z.odd_spec in Ob. destruct Ob as [k Hk].
    destruct (Z.compare_spec (2 * r + 1) b); lia.
Qed.

Lemma shr_record_of_loc_m m l : shr_m (shr_record_of_loc m l) = m.
Proof. destruct l as [|[]]; reflexivity. Qed.

Lemma loc_of_shr_record_of_loc m l :
  loc_of_shr_record (shr_record_of_loc m l) = l.
Proof. destruct l as [|[]]; reflexivity. Qed.

Lemma fexp_normal (d : Z) : -1000 <= d -> fexp prec emax d = d - 53.
Proof. intros H. unfold fexp, emin, prec, emax. lia. Qed.

Lemma shr_fexp_keep (m e : Z) (l : location) :
  Zdigits2 m = 53 -> -900 <= e ->
  shr_fexp prec emax m e l = (shr_record_of_loc m l, e).
Proof.
  intros Hd He. unfold shr_fexp. rewrite Hd, fexp_normal by lia.
  replace (53 + e - 53 - e) with 0 by lia. reflexivity.
Qed.

Lemma shr_fexp_one (m e : Z) (l : location) :
  Zdigits2 m = 54 -> -900 <= e ->
  shr_fexp prec emax m e l = (shr_1 (shr_record_of_loc m l), e + 1).
Proof.
  intros Hd He. unfold shr_fexp. rewrite Hd, fexp_normal by lia.
  replace (54 + e - 53 - e) with 1 by lia. reflexivity.
Qed.

Lemma Zdigits2_cases (q : Z) :
  2 ^ 52 <= q < 2 ^ 54 ->
  (Zdigits2 q = 53 /\ q < 2 ^ 53) \/ (Zdigits2 q = 54 /\ 2 ^ 53 <= q).
Proof.
  intros [Hlo Hhi]. destruct q as [|p|p]; try lia.
  destruct (Z_lt_le_dec (Zpos p) (2 ^ 53)) as [H|H]; [left|right]; split; try assumption.
  - cbn [Zdigits2]. apply digits2_unique; lia.
  - cbn [Zdigits2]. apply digits2_unique; lia.
Qed.

(** The second shift of [binary_round_aux]: a mantissa that rounding carried
    to 2^53 is halved, the value is unchanged. *)
Lemma renormalise (s : bool) (m1 e1 : Z) :
  2 ^ 52 <= m1 <= 2 ^ 53 -> -900 <= e1 <= 0 ->
  exists m2 e2,
    (let '(mrs, e) := shr_fexp prec emax m1 e1 loc_Exact in
     match shr_m mrs with
     | Z0 => S754_zero s
     | Zpos m => if Z.leb e (emax - prec) then S754_finite s m e
                 else S754_infinity s
     | Zneg _ => S754_nan
     end) = S754_finite s m2 e2
    /\ Z.shiftl (Zpos m2) e2 = Z.shiftl m1 e1.
Proof.
  intros Hm He.
  destruct (Z.eq_dec m1 (2 ^ 53)) as [-> | Hne].
  - rewrite shr_fexp_one by (reflexivity || lia).
    change (2 ^ 53) with (Z.shiftl (2 ^ 52) 1).
    exists (Z.to_pos (2 ^ 52)), (e1 + 1). split.
    + cbn [shr_record_of_loc]. unfold shr_1.
      change (Z.shiftl (2 ^ 52) 1) with (Zpos (xO (Z.to_pos (2 ^ 52)))).
      cbn [shr_m orb].
      replace (e1 + 1 <=? emax - prec) with true; [reflexivity|].
      symmetry. apply Z.leb_le. unfold emax, prec. lia.
    + rewrite Z.shiftl_shiftl by lia. f_equal. lia.
  - destruct (Zdigits2_cases m1) as [[Hd _] | [_ Hc]]; try lia.
    rewrite shr_fexp_keep by (assumption || lia).
    rewrite shr_record_of_loc_m.
    destruct m1 as [|p|p]; try lia.
    exists p, e1. split; [|reflexivity].
    replace (e1 <=? emax - prec) with true; [reflexivity|].
    symmetry. apply Z.leb_le. unfold emax, prec. lia.
Qed.

(** Rounding a quotient [q], remainder [r], divisor [b], whose mantissa has 53
    or 54 bits: the result is finite and its mantissa [m1], before the
    renormalisation, is an integer nearest to the exact quotient at the
    exponent [e1] kept. *)
Lemma binary_round_aux_nearest (s : bool) (q e b r : Z) :
  2 ^ 52 <= q < 2 ^ 54 -> -900 <= e <= -1 -> 0 <= r < b ->
  exists m2 e2 m1 e1,
    binary_round_aux prec emax s q e (new_location b r) = S754_finite s m2 e2
    /\ Z.shiftl (Zpos m2) e2 = Z.shiftl m1 e1
    /\ ((e1 = e /\ 2 * m1 * b - b <= 2 * (q * b + r) <= 2 * m1 * b + b)
        \/ (e1 = e + 1 /\ 2 * m1 * b - b <= q * b + r <= 2 * m1 * b + b)).
Proof.
  intros Hq He Hr.
  pose proof (new_location_spec b r Hr) as Hl.
  unfold binary_round_aux.
  destruct (Zdigits2_cases q Hq) as [[Hd Hlt] | [Hd Hge]].
  - rewrite shr_fexp_keep by (assumption || lia).
    rewrite shr_record_of_loc_m, loc_of_shr_record_of_loc.
    set (m1 := round_nearest_even q (new_location b r)).
    assert (Hm1 : ((m1 = q /\ 2 * r <= b) \/ (m1 = q + 1 /\ b <= 2 * r))).
    { subst m1. destruct (new_location b r) as [|[]]; cbn [round_nearest_even];
        try (left; split; [reflexivity|lia]); try (right; split; [reflexivity|lia]).
      destruct (Z.even q); [left | right]; (split; [reflexivity|lia]). }
    clearbody m1.
    destruct (renormalise s m1 e ltac:(lia) ltac:(lia)) as (m2 & e2 & Heq & Hsh).
    exists m2, e2, m1, e. split; [exact Heq|]. split; [exact Hsh|].
    left. split; [reflexivity|]. destruct Hm1 as [[-> Hb] | [-> Hb]]; lia.
  - rewrite shr_fexp_one by (assumption || lia).
    destruct q as [|pq|pq]; try lia.
    set (mrs := shr_1 (shr_record_of_loc (Zpos pq) (new_location b r))).
    set (m1 := round_nearest_even (shr_m mrs) (loc_of_shr_record mrs)).
    assert (Hm1 : 2 ^ 52 <= m1 <= 2 ^ 53
                  /\ 2 * m1 * b - b <= Zpos pq * b + r <= 2 * m1 * b + b).
    { subst m1 mrs.
      destruct pq as [p|p|]; [ | | lia];
        destruct (new_location b r) as [|[]];
        cbn [shr_record_of_loc shr_1 shr_m loc_of_shr_record orb round_nearest_even];
        try destruct (Z.even (Zpos p));
        (split; [lia | nia]). }
    destruct Hm1 as [Hb1 Hn1]. clearbody m1.
    destruct (renormalise s m1 (e + 1) Hb1 ltac:(lia)) as (m2 & e2 & Heq & Hsh).
    exists m2, e2, m1, (e + 1). split; [exact Heq|]. split; [exact Hsh|].
    right. split; [reflexivity | exact Hn1].
Qed.

Lemma shiftl_neg_div (m e : Z) : e <= 0 -> Z.shiftl m e = m / 2 ^ (- e).
Proof.
  intros He. replace e with (- (- e)) at 1 by lia.
  rewrite Z.shiftl_opp_r. apply Z.shiftr_div_pow2. lia.
Qed.

Lemma digits2_le_53 (p : positive) :
  Zpos p < 2 ^ 53 -> 1 <= Zpos (digits2_pos p) <= 53.
Proof.
  intros Hp. pose proof (digits2_bounds p) as [Hlo _]. split; [lia|].
  destruct (Z_le_gt_dec (Zpos (digits2_pos p)) 53) as [H|H]; [exact H|].
  assert (2 ^ 53 <= 2 ^ (Zpos (digits2_pos p) - 1)) by (apply Z.pow_le_mono_r; lia).
  lia.
Qed.

(** The binary64 quotient of two positive integers below 2^53, truncated to
    an integer, is their Euclidean quotient. *)
Lemma SFdiv_trunc (s : bool) (pa pb : positive) :
  Zpos pa < 2 ^ 53 -> Zpos pb < 2 ^ 53 ->
  exists m e,
    SFdiv prec emax (S754_finite s pa 0) (S754_finite false pb 0)
    = S754_finite s m e
    /\ Z.shiftl (Zpos m) e = Zpos pa / Zpos pb.
Proof.
  intros Ha Hb.
  pose proof (digits2_bounds pa) as [Ha1 Ha2].
  pose proof (digits2_bounds pb) as [Hb1 Hb2].
  pose proof (digits2_le_53 pa Ha) as Hd1.
  pose proof (digits2_le_53 pb Hb) as Hd2.
  unfold SFdiv, SFdiv_core_binary. cbn [Zdigits2].
  set (d1 := Zpos (digits2_pos pa)) in *.
  set (d2 := Zpos (digits2_pos pb)) in *.
  rewrite fexp_normal by lia.
  replace (Z.min (d1 + 0 - (d2 + 0) - 53) (0 - 0)) with (d1 - d2 - 53) by lia.
  replace (0 - 0 - (d1 - d2 - 53)) with (53 + d2 - d1) by lia.
  set (sh := 53 + d2 - d1).
  assert (Hsh : 0 < sh) by (subst sh; lia).
  replace (match sh with
           | 0 => Zpos pa
           | Zpos _ => Z.shiftl (Zpos pa) sh
           | Zneg _ => 0
           end) with (Zpos pa * 2 ^ sh)
    by (rewrite <- Z.shiftl_mul_pow2 by lia; destruct sh; lia || reflexivity).
  pose proof (Z_div_mod (Zpos pa * 2 ^ sh) (Zpos pb) ltac:(lia)) as Hdm.
  destruct (Z.div_eucl (Zpos pa * 2 ^ sh) (Zpos pb)) as [q r].
  destruct Hdm as [HA Hr].
  (* powers of two at hand *)
  assert (HS : 2 ^ sh * 2 ^ d1 = 2 ^ 53 * 2 ^ d2).
  { rewrite <- !Z.pow_add_r by lia. f_equal. subst sh. lia. }
  assert (HX1 : 2 ^ d1 = 2 * 2 ^ (d1 - 1)).
  { rewrite <- Z.pow_succ_r by lia. f_equal. lia. }
  assert (HX2 : 2 ^ d2 = 2 * 2 ^ (d2 - 1)).
  { rewrite <- Z.pow_succ_r by lia. f_equal. lia. }
  assert (HbS : Zpos pb < 2 ^ sh).
  { assert (2 ^ d2 <= 2 ^ sh) by (apply Z.pow_le_mono_r; subst sh; lia). lia. }
  assert (HS2 : 2 ^ sh = 2 * 2 ^ (sh - 1)).
  { rewrite <- Z.pow_succ_r by lia. f_equal. lia. }
  assert (Hq : 2 ^ 52 <= q < 2 ^ 54).
  { change (2 ^ 52) with 4503599627370496 in *.
    change (2 ^ 53) with 9007199254740992 in *.
    change (2 ^ 54) with 18014398509481984 in *.
    generalize dependent (2 ^ sh). generalize dependent (2 ^ d1).
    generalize dependent (2 ^ d2). generalize dependent (2 ^ (d1 - 1)).
    generalize dependent (2 ^ (d2 - 1)). generalize dependent (2 ^ (sh - 1)).
    intros. split; nia. }
  destruct (binary_round_aux_nearest s q (d1 - d2 - 53) (Zpos pb) r Hq ltac:(lia) Hr)
    as (m2 & e2 & m1 & e1 & Heq & Hshift & Hnear).
  exists m2, e2. split; [rewrite xorb_false_r; exact Heq|].
  rewrite Hshift.
  destruct Hnear as [[-> Hn] | [-> Hn]].
  - rewrite shiftl_neg_div by lia.
    replace (- (d1 - d2 - 53)) with sh by (subst sh; lia).
    apply nearest_trunc; try lia.
  - rewrite shiftl_neg_div by lia.
    replace (- (d1 - d2 - 53 + 1)) with (sh - 1) by (subst sh; lia).
    apply nearest_trunc; try lia.
Qed.

(** [int(a / b)] is [a] quot [b] for ints below 2^53 in magnitude and a
    positive divisor: the rounding of the float division never reaches the
    next integer. *)
Lemma int_truediv_trunc (a b : Z) :
  - 2 ^ 53 < a < 2 ^ 53 -> 0 < b < 2 ^ 53 ->
  exists f, int_truediv a b = Ok f /\ int_of_float f = Ok (Z.quot a b).
Proof.
  intros Ha Hb. unfold int_truediv, round_quot.
  destruct (Z.eqb_spec b 0) as [->|_]; [lia|].
  destruct b as [|pb|pb]; try lia.
  destruct a as [|pa|pa].
  - exists (S754_zero false). split; reflexivity.
  - destruct (SFdiv_trunc false pa pb ltac:(lia) ltac:(lia)) as (m & e & Heq & Hsh).
    cbn [Z2SF]. rewrite Heq. exists (S754_finite false m e). split; [reflexivity|].
    cbn [int_of_float cond_Zopp]. rewrite Hsh.
    rewrite Z.quot_div_nonneg by lia. reflexivity.
  - destruct (SFdiv_trunc true pa pb ltac:(lia) ltac:(lia)) as (m & e & Heq & Hsh).
    cbn [Z2SF]. rewrite Heq. exists (S754_finite true m e). split; [reflexivity|].
    cbn [int_of_float cond_Zopp]. rewrite Hsh.
    change (Zneg pa) with (- Zpos pa). rewrite Z.quot_opp_l by lia.
    rewrite Z.quot_div_nonneg by lia. reflexivity.
Qed.

(** ** Decimal digits: [float] of two joined [str] *)

Lemma usize_nb_digits (d : uint) : Unsigned.usize d = N.of_nat (nb_digits d).
Proof.
  induction d; cbn [Unsigned.usize nb_digits]; rewrite ?IHd; lia.
Qed.

Lemma of_lu_lt (d : uint) : (Unsigned.of_lu d < 10 ^ Unsigned.usize d)%N.
Proof.
  induction d; cbn [Unsigned.of_lu Unsigned.usize];
    rewrite ?N.pow_succ_r'; lia.
Qed.

(** A positive number lies between the powers of ten that its number of
    digits gives. *)
Lemma to_uint_bounds (p : positive) :
  (10 ^ (Unsigned.usize (Pos.to_uint p) - 1) <= Npos p
   < 10 ^ Unsigned.usize (Pos.to_uint p))%N.
Proof.
  pose proof (Unsigned.of_to p) as Hp.
  pose proof (Unsigned.to_uint_nonzero p) as Hnz.
  pose proof (Unsigned.to_of (Pos.to_uint p)) as Hn. rewrite Hp in Hn.
  cbn [N.to_uint] in Hn.
  split.
  - rewrite <- Hp.
    destruct (Pos.to_uint p) as [|d|d|d|d|d|d|d|d|d|d] eqn:E;
      cbn [Pos.of_uint Unsigned.usize];
      try (rewrite Unsigned.of_uint_acc_rev;
           replace (N.succ (Unsigned.usize d) - 1)%N with (Unsigned.usize d) by lia;
           nia).
    + exfalso. now apply (Unsigned.to_uint_nonnil p).
    + (* a leading zero is excluded by normalisation *)
      exfalso. unfold unorm in Hn. cbn [nzhead] in Hn.
      pose proof (nb_digits_nzhead d) as Hle.
      destruct (nzhead d) eqn:En; try discriminate Hn.
      * apply Hnz. exact Hn.
      * injection Hn as Hn. subst. cbn [nb_digits] in Hle. lia.
  - assert (Hsz : Unsigned.usize (Pos.to_uint p)
                 = Unsigned.usize (rev (Pos.to_uint p)))
      by (rewrite !usize_nb_digits, nb_digits_rev; reflexivity).
    rewrite Hsz, <- Hp, Unsigned.of_uint_alt. apply of_lu_lt.
Qed.

Lemma ndigits_pos (z : Z) : 1 <= ndigits z.
Proof.
  unfold ndigits, digits. destruct (Z.to_N z) as [|p]; cbn [N.to_uint].
  - cbn. lia.
  - pose proof (Unsigned.to_uint_nonnil p) as H.
    destruct (Pos.to_uint p); [contradiction| ..]; cbn [nb_digits]; lia.
Qed.

(** [ndigits z] is the number of decimal digits of [z]. *)
Lemma ndigits_spec (z : Z) :
  0 < z -> 10 ^ (ndigits z - 1) <= z < 10 ^ ndigits z.
Proof.
  intros Hz. pose proof (ndigits_pos z) as Hn. unfold ndigits, digits in *.
  destruct z as [|p|p]; try lia. cbn [Z.to_N N.to_uint] in *.
  pose proof (to_uint_bounds p) as [Hlo Hhi].
  rewrite usize_nb_digits in Hlo, Hhi.
  set (n := nb_digits (Pos.to_uint p)) in *.
  apply N2Z.inj_le in Hlo. apply N2Z.inj_lt in Hhi.
  rewrite N2Z.inj_pow in Hlo, Hhi. rewrite N2Z.inj_sub in Hlo by lia.
  rewrite nat_N_Z in Hlo, Hhi. cbn in Hlo, Hhi. lia.
Qed.

Lemma ndigits_zero : ndigits 0 = 1.
Proof. reflexivity. Qed.

Lemma str_nonneg (z : Z) :
  0 <= z -> str z = NilEmpty.string_of_uint (digits z).
Proof.
  intros Hz. unfold str, digits. destruct z as [|p|p]; try lia; [reflexivity|].
  cbn [Z.to_int NilZero.string_of_int Z.to_N N.to_uint].
  unfold NilZero.string_of_uint.
  pose proof (Unsigned.to_uint_nonnil p) as H.
  destruct (Pos.to_uint p); [contradiction| ..]; reflexivity.
Qed.

Lemma digits_nonnil (z : Z) : digits z <> Nil.
Proof.
  unfold digits. destruct (Z.to_N z); cbn [N.to_uint].
  - discriminate.
  - apply Unsigned.to_uint_nonnil.
Qed.

Lemma of_uint_digits (z : Z) : 0 <= z -> Z.of_uint (digits z) = z.
Proof.
  intros Hz. unfold Z.of_uint, digits.
  change (Pos.of_uint (N.to_uint (Z.to_N z))) with (N.of_uint (N.to_uint (Z.to_N z))).
  rewrite DecimalN.Unsigned.of_to. lia.
Qed.

Lemma partition_dot_digits (u : uint) (s : string) :
  partition_dot (NilEmpty.string_of_uint u ++ String "." s)
  = (NilEmpty.string_of_uint u, Some s).
Proof.
  induction u; cbn [NilEmpty.string_of_uint append partition_dot Ascii.eqb Bool.eqb];
    try rewrite IHu; reflexivity.
Qed.

(** [version] on two non-negative ints: the string is parsed back to the
    digits that [str] printed, and the float is the rounded fraction. *)
Lemma version_value (major minor : Z) :
  0 <= major -> 0 <= minor ->
  Util.version major minor
  = Ok (round_quot (major * 10 ^ ndigits minor + minor) (10 ^ ndigits minor)).
Proof.
  intros HM Hm. unfold Util.version.
  change (join "." [str major; str minor])
    with (str major ++ String "." (str minor))%string.
  rewrite (str_nonneg major HM), (str_nonneg minor Hm).
  pose proof (digits_nonnil major) as Hnn.
  unfold float_of_str.
  replace (match (NilEmpty.string_of_uint (digits major) ++
                  String "." (NilEmpty.string_of_uint (digits minor)))%string with
           | String c t =>
               if Ascii.eqb c "-" then (true, t)
               else (false, (NilEmpty.string_of_uint (digits major) ++
                      String "." (NilEmpty.string_of_uint (digits minor)))%string)
           | EmptyString =>
               (false, (NilEmpty.string_of_uint (digits major) ++
                      String "." (NilEmpty.string_of_uint (digits minor)))%string)
           end)
    with (false, (NilEmpty.string_of_uint (digits major) ++
                      String "." (NilEmpty.string_of_uint (digits minor)))%string)
    by (destruct (digits major); reflexivity).
  unfold decimal_fraction.
  rewrite partition_dot_digits, !NilEmpty.usu, !of_uint_digits by assumption.
  fold (ndigits minor).
  destruct (digits major); [contradiction| ..]; reflexivity.
Qed.

(** ** Unpacking and file operations *)

(** A little-endian field of [w] bytes is below 2^(8w). *)
Lemma le_uint_firstn (w : nat) (l : list byte) :
  0 <= le_uint (firstn w l) < 2 ^ (8 * Z.of_nat w).
Proof.
  revert l. induction w as [|w IH]; intros l.
  - cbn. lia.
  - destruct l as [|x l]; cbn [firstn le_uint].
    + split; [lia | apply Z.pow_pos_nonneg; lia].
    + specialize (IH l). pose proof (Byte.to_N_bounded x) as Hx.
      replace (8 * Z.of_nat (S w)) with (8 + 8 * Z.of_nat w) by lia.
      rewrite Z.pow_add_r by lia. change (2 ^ 8) with 256. lia.
Qed.

Lemma field_uint (b : list byte) (off w : nat) :
  unsigned (8 * Z.of_nat w) (field b off w).
Proof. apply le_uint_firstn. Qed.

(** Unpacking with the header format and building the named tuple gives the
    fields of the layout, for a buffer of 96 bytes, and [struct.error]
    otherwise; likewise for an index entry and 32 bytes. *)
Lemma unpack_header (buf : list byte) :
  match unpack HeaderStruct buf with
  | Ok v => Header.new v
  | Raise e => Raise e
  end = if Nat.eqb (List.length buf) 96 then Ok (header_of_bytes buf)
        else Raise StructError.
Proof.
  unfold unpack. change (size HeaderStruct) with 96%nat.
  destruct (Nat.eqb (List.length buf) 96); [|reflexivity].
  cbn [HeaderStruct headerTemplate map snd unpack_fields width decode Header.new].
  unfold header_of_bytes, field. rewrite !skipn_skipn. reflexivity.
Qed.

Lemma unpack_entry (buf : list byte) :
  match unpack IndexEntryStruct buf with
  | Ok v => IndexEntry.new v
  | Raise e => Raise e
  end = if Nat.eqb (List.length buf) 32 then Ok (entry_of_bytes buf)
        else Raise StructError.
Proof.
  unfold unpack. change (size IndexEntryStruct) with 32%nat.
  destruct (Nat.eqb (List.length buf) 32); [|reflexivity].
  cbn [IndexEntryStruct indexEntryTemplate map snd unpack_fields width decode
       IndexEntry.new].
  unfold entry_of_bytes, field. rewrite !skipn_skipn. reflexivity.
Qed.

Lemma header_of_bytes_in_range (b : list byte) : header_in_range (header_of_bytes b).
Proof. repeat split; apply (field_uint b _ 4) || apply (field_uint b _ 8). Qed.

Lemma entry_of_bytes_in_range (b : list byte) : entry_in_range (entry_of_bytes b).
Proof. repeat split; apply (field_uint b _ 4). Qed.

(** The largest offset is not below the size of the file nor below
    2^32 - 1. *)
Lemma max_offset_bounds (fd : file) :
  Z.of_nat (List.length (contents fd)) <= max_offset fd
  /\ 2 ^ 32 - 1 <= max_offset fd.
Proof. unfold max_offset. lia. Qed.

Lemma max_offset_at (data : list byte) (c c' : Z) (r : N) :
  max_offset (at_ data c r) = max_offset (at_ data c' r).
Proof. reflexivity. Qed.

(** [seek] by cases on the position. *)
Lemma seek_cases (n : Z) (fd : file) :
  seek n fd
  = if (n <? - 2 ^ 63) || (2 ^ 63 <=? n) then (Raise ValueError, fd)
    else if (n <? 0) || (max_offset fd <? n) then (Raise OSError, fd)
    else (Ok tt, at_ (contents fd) n (room fd)).
Proof. reflexivity. Qed.

Lemma seek_at (n : Z) (fd : file) :
  0 <= n < 2 ^ 63 -> n <= max_offset fd ->
  seek n fd = (Ok tt, at_ (contents fd) n (room fd)).
Proof.
  intros Hn Hm. rewrite seek_cases.
  destruct (Z.ltb_spec n (- 2 ^ 63)); [lia|].
  destruct (Z.leb_spec (2 ^ 63) n); [lia|].
  destruct (Z.ltb_spec n 0); [lia|].
  destruct (Z.ltb_spec (max_offset fd) n); [lia | reflexivity].
Qed.

(** A position above the largest offset that fits 64 bits is refused by the
    system, one that does not fit by the conversion. *)
Lemma seek_beyond (n : Z) (fd : file) :
  max_offset fd < n < 2 ^ 63 -> seek n fd = (Raise OSError, fd).
Proof.
  intros Hn. pose proof (max_offset_bounds fd). rewrite seek_cases.
  destruct (Z.ltb_spec n (- 2 ^ 63)); [lia|].
  destruct (Z.leb_spec (2 ^ 63) n); [lia|].
  destruct (Z.ltb_spec n 0); [reflexivity|].
  destruct (Z.ltb_spec (max_offset fd) n); [reflexivity | lia].
Qed.

Lemma seek_unfit (n : Z) (fd : file) :
  2 ^ 63 <= n -> seek n fd = (Raise ValueError, fd).
Proof.
  intros Hn. rewrite seek_cases.
  destruct (Z.ltb_spec n (- 2 ^ 63)); [reflexivity|].
  destruct (Z.leb_spec (2 ^ 63) n); [reflexivity | lia].
Qed.

Lemma seek_contents (n : Z) (fd : file) : contents (snd (seek n fd)) = contents fd.
Proof.
  rewrite seek_cases.
  destruct ((n <? - 2 ^ 63) || (2 ^ 63 <=? n)); [reflexivity|].
  destruct ((n <? 0) || (max_offset fd <? n)); reflexivity.
Qed.

Lemma read_at (n : Z) (data : list byte) (c : Z) (r : N) :
  -1 <= n ->
  read n (at_ data c r)
  = (Ok (read_bytes data c n),
     at_ data (c + Z.of_nat (List.length (read_bytes data c n))) r).
Proof.
  intros Hn. unfold read. destruct (Z.ltb_spec n (-1)); [lia | reflexivity].
Qed.

Lemma read_refused (n : Z) (fd : file) :
  n < -1 -> read n fd = (Raise ValueError, fd).
Proof.
  intros Hn. unfold read. destruct (Z.ltb_spec n (-1)); [reflexivity | lia].
Qed.

(** [__init__] in closed form. *)
Lemma init_eq (v : bool) (fd : file) :
  DBPF.__init__ v fd =
  let buf := firstn 96 (contents fd) in
  (if Nat.eqb (List.length buf) 96 then
     if DBPF.bytes_eqb (firstn 4 buf) DBPF.magic
     then Ok {| DBPF.verbose := v; DBPF.header := header_of_bytes buf |}
     else Raise (DBPFException "Not a DBPF file")
   else Raise StructError,
   at_ (contents fd) (Z.of_nat (List.length buf)) (room fd)).
Proof.
  unfold DBPF.__init__, bind.
  rewrite seek_at by (pose proof (max_offset_bounds fd); lia).
  rewrite read_at by (change (Z.of_nat (size HeaderStruct)) with 96; lia).
  change (read_bytes (contents fd) 0 (Z.of_nat (size HeaderStruct)))
    with (firstn 96 (contents fd)).
  cbv zeta. set (buf := firstn 96 (contents fd)).
  unfold lift, ret, throw.
  pose proof (unpack_header buf) as Hu.
  destruct (unpack HeaderStruct buf) as [vals|e].
  - rewrite Hu. destruct (Nat.eqb (List.length buf) 96); [|reflexivity].
    cbn [Header.fileIdentifier header_of_bytes].
    destruct (DBPF.bytes_eqb (firstn 4 buf) DBPF.magic); reflexivity.
  - destruct (Nat.eqb (List.length buf) 96);
      [discriminate Hu | injection Hu as ->; reflexivity].
Qed.

Lemma bytes_eqb_eq (a b : list byte) : DBPF.bytes_eqb a b = true <-> a = b.
Proof.
  unfold DBPF.bytes_eqb. destruct (list_eq_dec byte_eq_dec a b); split; congruence.
Qed.

(** What a successful [__init__] tells about the source and the object. *)
Lemma init_decoded (v : bool) (fd fd' : file) (self : DBPF.t) :
  DBPF.__init__ v fd = (Ok self, fd') ->
  self = {| DBPF.verbose := v;
            DBPF.header := header_of_bytes (firstn 96 (contents fd)) |}
  /\ (96 <= List.length (contents fd))%nat
  /\ firstn 4 (contents fd) = DBPF.magic
  /\ fd' = at_ (contents fd) 96 (room fd).
Proof.
  rewrite init_eq. cbv zeta.
  destruct (Nat.eqb_spec (List.length (firstn 96 (contents fd))) 96) as [Hlen|Hlen];
    [|discriminate].
  rewrite Hlen.
  destruct (DBPF.bytes_eqb _ _) eqn:Hmagic; [|discriminate].
  change (Z.of_nat 96) with 96.
  intros H. apply bytes_eqb_eq in Hmagic. rewrite firstn_firstn in Hmagic.
  split; [congruence|]. split; [|split].
  - rewrite length_firstn in Hlen. lia.
  - exact Hmagic.
  - congruence.
Qed.

Lemma init_in_range (v : bool) (fd fd' : file) (self : DBPF.t) :
  DBPF.__init__ v fd = (Ok self, fd') -> header_in_range (DBPF.header self).
Proof.
  intros H. apply init_decoded in H as [-> _]. apply header_of_bytes_in_range.
Qed.



Lemma read_entry_at (w : Z) (data : list byte) (c : Z) (r : N) :
  -1 <= w ->
  DBPF.read_entry w (at_ data c r)
  = (if Nat.eqb (List.length (read_bytes data c w)) 32
     then Ok (entry_of_bytes (read_bytes data c w))
     else Raise StructError,
     at_ data (c + Z.of_nat (List.length (read_bytes data c w))) r).
Proof.
  intros Hw. unfold DBPF.read_entry, bind. rewrite read_at by assumption.
  unfold lift.
  pose proof (unpack_entry (read_bytes data c w)) as Hu.
  destruct (unpack IndexEntryStruct (read_bytes data c w)) as [vals|e].
  - rewrite Hu. destruct (Nat.eqb _ 32); reflexivity.
  - rewrite <- Hu. reflexivity.
Qed.

Lemma for_each_cons {A B} (body : A -> M B) (a : A) (l : list A) (fd : file) :
  DBPF.for_each body (a :: l) fd
  = match body a fd with
    | (Ok b, fd1) =>
        match DBPF.for_each body l fd1 with
        | (Ok bs, fd2) => (Ok (b :: bs), fd2)
        | (Raise e, fd2) => (Raise e, fd2)
        end
    | (Raise e, fd1) => (Raise e, fd1)
    end.
Proof.
  cbn [DBPF.for_each]. unfold bind, ret. destruct (body a fd) as [[b|e] fd1]; [|reflexivity].
  destruct (DBPF.for_each body l fd1) as [[bs|e] fd2]; reflexivity.
Qed.


(** ** Lemmas on the operations of the class *)

Lemma index_decoded (self : DBPF.t) :
  header_in_range (DBPF.header self) ->
  exists v,
    Util.version (Header.indexRecordMajorVersion (DBPF.header self))
                 (Header.indexMinorVersion (DBPF.header self)) = Ok v
    /\ DBPF.index self
       = Ok {| Index.version := Float v;
               Index.count := Header.indexRecordEntryCount (DBPF.header self);
               Index.offset :=
                 (if Header.fileMajor (DBPF.header self) =? 1
                  then Header.indexOffsetBytesV1 (DBPF.header self)
                  else Header.indexOffsetBytes (DBPF.header self)) + 4;
               Index.size := Header.indexRecordSizeBytes (DBPF.header self) - 4 |}.
Proof.
  intros (_ & _ & _ & _ & [HM _] & _ & _ & _ & [Hm _] & _).
  unfold DBPF.index. rewrite version_value by assumption.
  eexists. split; reflexivity.
Qed.

Lemma index_fields (self : DBPF.t) (idx : Index.t) :
  header_in_range (DBPF.header self) -> DBPF.index self = Ok idx ->
  Index.count idx = Header.indexRecordEntryCount (DBPF.header self)
  /\ Index.size idx = Header.indexRecordSizeBytes (DBPF.header self) - 4
  /\ Index.offset idx
     = (if Header.fileMajor (DBPF.header self) =? 1
        then Header.indexOffsetBytesV1 (DBPF.header self)
        else Header.indexOffsetBytes (DBPF.header self)) + 4.
Proof.
  intros Hr Hi. destruct (index_decoded self Hr) as (v & _ & He).
  rewrite He in Hi. injection Hi as <-. repeat split.
Qed.

Lemma index_bounds (self : DBPF.t) (idx : Index.t) :
  header_in_range (DBPF.header self) -> DBPF.index self = Ok idx ->
  0 <= Index.count idx < 2 ^ 32
  /\ -4 <= Index.size idx < 2 ^ 32 - 4
  /\ 4 <= Index.offset idx < 2 ^ 64 + 4.
Proof.
  intros Hr Hi. destruct (index_fields self idx Hr Hi) as (-> & -> & ->).
  destruct Hr as (_ & _ & _ & _ & _ & Hc & H1 & Hs & _ & H2).
  unfold unsigned in *.
  destruct (Header.fileMajor (DBPF.header self) =? 1); lia.
Qed.

Lemma index_width_zero (self : DBPF.t) (idx : Index.t) :
  DBPF.index self = Ok idx -> Index.count idx = 0 ->
  DBPF._index_width self = Raise ZeroDivisionError.
Proof.
  intros Hi Hc. unfold DBPF._index_width, int_truediv. rewrite Hi, Hc. reflexivity.
Qed.

Lemma index_width_quot (self : DBPF.t) (idx : Index.t) :
  header_in_range (DBPF.header self) -> DBPF.index self = Ok idx ->
  Index.count idx <> 0 ->
  DBPF._index_width self = Ok (Z.quot (Index.size idx) (Index.count idx)).
Proof.
  intros Hr Hi Hc. pose proof (index_bounds self idx Hr Hi) as (Bc & Bs & _).
  unfold DBPF._index_width. rewrite Hi.
  destruct (int_truediv_trunc (Index.size idx) (Index.count idx))
    as (f & Hdiv & Hint); [lia | lia |].
  rewrite Hdiv. exact Hint.
Qed.

Lemma index_entries_unfold (self : DBPF.t) (idx : Index.t) (w : Z) (fd : file) :
  DBPF.index self = Ok idx -> DBPF._index_width self = Ok w ->
  DBPF._index_entries self fd
  = match seek (Index.offset idx) fd with
    | (Ok _, fd1) =>
        match range 0 (Index.size idx) w with
        | Ok steps => DBPF.for_each (fun _ => DBPF.read_entry w) steps fd1
        | Raise e => (Raise e, fd1)
        end
    | (Raise e, fd1) => (Raise e, fd1)
    end.
Proof.
  intros Hi Hw. unfold DBPF._index_entries, bind, lift. rewrite Hi, Hw.
  destruct (seek (Index.offset idx) fd) as [[[]|e] fd1]; [|reflexivity].
  destruct (range 0 (Index.size idx) w); reflexivity.
Qed.

Lemma range_steps (start stop step : Z) :
  step <> 0 ->
  exists steps, range start stop step = Ok steps
    /\ List.length steps = Z.to_nat (range_len start stop step).
Proof.
  intros Hs. unfold range. destruct (Z.eqb_spec step 0); [contradiction|].
  eexists. split; [reflexivity|]. rewrite length_map, length_seq. reflexivity.
Qed.


Lemma quot_sign (a b : Z) :
  0 < b ->
  (0 < Z.quot a b -> 0 < a) /\ (Z.quot a b < 0 -> a < 0).
Proof.
  intros Hb. split; intros H.
  - destruct (Z_lt_le_dec 0 a) as [|Ha]; [assumption|].
    pose proof (Z.quot_pos (- a) b ltac:(lia) ltac:(lia)) as Hq.
    rewrite Z.quot_opp_l in Hq by lia. lia.
  - destruct (Z_lt_le_dec a 0) as [|Ha]; [assumption|].
    pose proof (Z.quot_pos a b ltac:(lia) ltac:(lia)). lia.
Qed.


Lemma file_eta (fd : file) : fd = at_ (contents fd) (cursor fd) (room fd).
Proof. destruct fd; reflexivity. Qed.

Lemma read_entry_refused (w : Z) (fd : file) :
  w < -1 -> DBPF.read_entry w fd = (Raise ValueError, fd).
Proof.
  intros Hw. unfold DBPF.read_entry, bind. rewrite read_refused by assumption.
  reflexivity.
Qed.

Lemma for_each_read_entry_raise (w : Z) (steps : list Z) (fd fd' : file) (e : exn) :
  DBPF.for_each (fun _ => DBPF.read_entry w) steps fd = (Raise e, fd') ->
  e = StructError \/ e = ValueError.
Proof.
  destruct (Z_lt_le_dec w (-1)) as [Hw|Hw].
  - destruct steps as [|i steps]; [discriminate|].
    rewrite for_each_cons, read_entry_refused by assumption.
    intros [= <- _]. right. reflexivity.
  - revert fd fd'. induction steps as [|i steps IH]; intros fd fd'.
    + discriminate.
    + rewrite for_each_cons, (file_eta fd), read_entry_at by assumption.
      destruct (Nat.eqb _ 32).
      * destruct (DBPF.for_each _ steps _) as [[bs|e'] fd2] eqn:E; [discriminate|].
        intros [= <- <-]. exact (IH _ _ E).
      * intros [= <- _]. left. reflexivity.
Qed.

Lemma for_each_read_entry_ok (w : Z) (steps : list Z) (fd fd' : file)
      (es : list IndexEntry.t) :
  DBPF.for_each (fun _ => DBPF.read_entry w) steps fd = (Ok es, fd') ->
  Forall entry_in_range es /\ contents fd' = contents fd
  /\ List.length es = List.length steps.
Proof.
  destruct (Z_lt_le_dec w (-1)) as [Hw|Hw].
  - destruct steps as [|i steps].
    + intros [= <- <-]. repeat split. constructor.
    + rewrite for_each_cons, read_entry_refused by assumption. discriminate.
  - revert fd fd' es. induction steps as [|i steps IH]; intros fd fd' es.
    + intros [= <- <-]. repeat split. constructor.
    + rewrite for_each_cons, (file_eta fd), read_entry_at by assumption.
      destruct (Nat.eqb _ 32); [|discriminate].
      destruct (DBPF.for_each _ steps _) as [[bs|e'] fd2] eqn:E; [|discriminate].
      intros [= <- <-]. apply IH in E as (Hr & Hc & Hl). repeat split.
      * constructor; [apply entry_of_bytes_in_range | exact Hr].
      * exact Hc.
      * cbn [List.length]. congruence.
Qed.


Lemma read_record_at (e : IndexEntry.t) (fd : file) :
  entry_in_range e ->
  DBPF.read_record e fd
  = (Ok (record_of (contents fd) e),
     at_ (contents fd)
         (IndexEntry.mnPosition e
          + Z.of_nat (List.length (Record_.raw (record_of (contents fd) e))))
         (room fd)).
Proof.
  intros [[Hp1 Hp2] [Hd1 _]]. unfold DBPF.read_record, bind.
  pose proof (max_offset_bounds fd) as [_ Hm].
  rewrite seek_at by lia.
  rewrite read_at by lia. reflexivity.
Qed.

Lemma for_each_records (entries : list IndexEntry.t) (fd : file) :
  Forall entry_in_range entries ->
  exists fd',
    DBPF.for_each DBPF.read_record entries fd
    = (Ok (map (record_of (contents fd)) entries), fd')
    /\ contents fd' = contents fd.
Proof.
  intros Hr. revert fd. induction Hr as [|e entries He _ IH]; intros fd.
  - exists fd. split; reflexivity.
  - rewrite for_each_cons, read_record_at by assumption.
    destruct (IH (at_ (contents fd)
                      (IndexEntry.mnPosition e
                       + Z.of_nat (List.length (Record_.raw (record_of (contents fd) e))))
                      (room fd)))
      as (fd' & Heq & Hc).
    rewrite Heq. exists fd'. split; [reflexivity | exact Hc].
Qed.

Lemma records_unfold (self : DBPF.t) (fd : file) :
  DBPF.records self fd
  = match DBPF._index_entries self fd with
    | (Ok es, fd1) => DBPF.for_each DBPF.read_record es fd1
    | (Raise e, fd1) => (Raise e, fd1)
    end.
Proof. reflexivity. Qed.

(** Only builtin exceptions come out of the index decoding. *)
Lemma version_raise (major minor : Z) (e : exn) :
  Util.version major minor = Raise e -> e = ValueError.
Proof.
  unfold Util.version, float_of_str.
  destruct (match join "." [str major; str minor] with
            | String c t =>
                if Ascii.eqb c "-" then (true, t)
                else (false, join "." [str major; str minor])
            | EmptyString => (false, join "." [str major; str minor])
            end) as [neg body].
  destruct (decimal_fraction body) as [[n d]|]; [discriminate|].
  intros [= <-]. reflexivity.
Qed.

Lemma index_raise (self : DBPF.t) (e : exn) :
  DBPF.index self = Raise e -> e = ValueError.
Proof.
  unfold DBPF.index.
  destruct (Util.version _ _) as [v|e'] eqn:E; [discriminate|].
  intros [= <-]. exact (version_raise _ _ _ E).
Qed.

Lemma index_width_raise (self : DBPF.t) (e : exn) :
  DBPF._index_width self = Raise e -> builtin e = true.
Proof.
  unfold DBPF._index_width.
  destruct (DBPF.index self) as [idx|e'] eqn:Ei.
  - unfold int_truediv.
    destruct (Index.count idx =? 0); [intros [= <-]; reflexivity|].
    destruct (round_quot (Index.size idx) (Index.count idx)) as [s|s| |s m x];
      cbn [int_of_float]; intros [= <-]; reflexivity.
  - intros [= <-]. apply index_raise in Ei as ->. reflexivity.
Qed.

Lemma seek_raise (n : Z) (fd fd' : file) (e : exn) :
  seek n fd = (Raise e, fd') -> builtin e = true.
Proof.
  rewrite seek_cases.
  destruct ((n <? - 2 ^ 63) || (2 ^ 63 <=? n)); [intros [= <- _]; reflexivity|].
  destruct ((n <? 0) || (max_offset fd <? n));
    [intros [= <- _]; reflexivity | discriminate].
Qed.

Lemma index_entries_raise (self : DBPF.t) (fd fd' : file) (e : exn) :
  DBPF._index_entries self fd = (Raise e, fd') -> builtin e = true.
Proof.
  unfold DBPF._index_entries, bind, lift.
  destruct (DBPF.index self) as [idx|e1] eqn:Ei.
  2:{ intros [= <- _]. apply index_raise in Ei as ->. reflexivity. }
  destruct (DBPF._index_width self) as [w|e2] eqn:Ew.
  2:{ intros [= <- _]. exact (index_width_raise _ _ Ew). }
  destruct (seek (Index.offset idx) fd) as [[[]|e3] fd1] eqn:Es.
  2:{ intros [= <- _]. exact (seek_raise _ _ _ _ Es). }
  unfold range. destruct (0 =? 0) eqn:Ez; [|discriminate Ez].
  destruct (w =? 0); [intros [= <- _]; reflexivity|].
  intros H. apply for_each_read_entry_raise in H as [-> | ->]; reflexivity.
Qed.


Lemma index_entries_ok (self : DBPF.t) (fd fd1 : file) (es : list IndexEntry.t) :
  DBPF._index_entries self fd = (Ok es, fd1) ->
  Forall entry_in_range es /\ contents fd1 = contents fd.
Proof.
  unfold DBPF._index_entries, bind, lift.
  destruct (DBPF.index self) as [idx|e1]; [|discriminate].
  destruct (DBPF._index_width self) as [w|e2]; [|discriminate].
  pose proof (seek_contents (Index.offset idx) fd) as Hs.
  destruct (seek (Index.offset idx) fd) as [[[]|e3] fd0]; [|discriminate].
  cbn [snd] in Hs.
  destruct (range 0 (Index.size idx) w) as [steps|e4]; [|discriminate].
  intros H. apply for_each_read_entry_ok in H as (Hr & Hc & _).
  split; [exact Hr | congruence].
Qed.

Lemma read_bytes_length (data : list byte) (c n : Z) :
  0 <= c -> 0 <= n ->
  Z.of_nat (List.length (read_bytes data c n))
  = Z.min n (Z.max 0 (Z.of_nat (List.length data) - c)).
Proof.
  intros Hc Hn. unfold read_bytes. destruct (Z.ltb_spec n 0); [lia|].
  rewrite length_firstn, length_skipn. lia.
Qed.

(** ** Properties of the module *)

Example version_string : join "." [str 2; str 1] = "2.1"%string.
Proof. reflexivity. Qed.

Example header_size : Struct.size HeaderStruct = 96%nat.
Proof. reflexivity. Qed.

Example index_entry_size : Struct.size IndexEntryStruct = 32%nat.
Proof. reflexivity. Qed.

Example range_up : range 0 65 32 = Ok [0; 32; 64].
Proof. reflexivity. Qed.

Example range_down : range 0 (-4) (-1) = Ok [0; -1; -2; -3].
Proof. reflexivity. Qed.

Example range_zero_step : range 0 10 0 = Raise ValueError.
Proof. reflexivity. Qed.

(** [65 / 2] is the float 32.5 and [int(32.5)] is 32. *)
Example truediv_half :
  int_truediv 65 2 = Ok (S754_finite false 4573968371548160 (-47))
  /\ int_of_float (S754_finite false 4573968371548160 (-47)) = Ok 32.
Proof. split; reflexivity. Qed.

Example str_negative : str (-25) = "-25"%string.
Proof. reflexivity. Qed.

Example float_rejects : float_of_str "2.-1" = Raise ValueError.
Proof. reflexivity. Qed.

(** [int(a / b)] is the quotient truncated toward zero, also below zero. *)
Example width_of_negative_size :
  (exists f, int_truediv (-4) 3 = Ok f /\ int_of_float f = Ok (-1))
  /\ (exists f, int_truediv (-4) 5 = Ok f /\ int_of_float f = Ok 0).
Proof. split; eexists; split; reflexivity. Qed.

Section Decoded.

Variables (v : bool) (fd fd' : file) (self : DBPF.t).
Hypothesis decoded : DBPF.__init__ v fd = (Ok self, fd').

Let hdr := DBPF.header self.

(** C1. For every decoded header the offset of the resource index is chosen
    by the major version of the file: with [fileMajor = 1] it comes from the
    legacy 32-bit field [indexOffsetBytesV1], with any other major version
    from the 64-bit field [indexOffsetBytes] (the descriptor reports the
    chosen field plus the 4 flag bytes). *)
Theorem index_offset_by_major :
  exists idx,
    DBPF.index self = Ok idx
    /\ (Header.fileMajor hdr = 1 ->
        Index.offset idx = Header.indexOffsetBytesV1 hdr + 4)
    /\ (Header.fileMajor hdr <> 1 ->
        Index.offset idx = Header.indexOffsetBytes hdr + 4).
Proof.
  destruct (index_decoded self (init_in_range _ _ _ _ decoded)) as (ver & _ & Hi).
  eexists. split; [exact Hi|]. cbn [Index.offset]. fold hdr.
  destruct (Z.eqb_spec (Header.fileMajor hdr) 1); split; intros; lia.
Qed.

(** C2. For every decoded header the descriptor of the resource index has
    the selected offset plus 4 as its offset and the declared size
    [indexRecordSizeBytes] minus 4 as its size; its count is the entry count
    of the header and its version is [version] of the index major and minor
    versions, both unadjusted. *)
Theorem index_descriptor :
  exists ver,
    Util.version (Header.indexRecordMajorVersion hdr)
                 (Header.indexMinorVersion hdr) = Ok ver
    /\ DBPF.index self
       = Ok {| Index.version := Float ver;
               Index.count := Header.indexRecordEntryCount hdr;
               Index.offset :=
                 (if Header.fileMajor hdr =? 1
                  then Header.indexOffsetBytesV1 hdr
                  else Header.indexOffsetBytes hdr) + 4;
               Index.size := Header.indexRecordSizeBytes hdr - 4 |}.
Proof. exact (index_decoded self (init_in_range _ _ _ _ decoded)). Qed.

(** C9, as the code has it.  For every decoded header whose declared index
    size is less than 4, the descriptor is computed without any error: its
    size is the declared size minus 4, a negative int between -4 and -1. *)
Theorem index_size_below_four :
  Header.indexRecordSizeBytes hdr < 4 ->
  exists idx,
    DBPF.index self = Ok idx
    /\ Index.size idx = Header.indexRecordSizeBytes hdr - 4
    /\ -4 <= Index.size idx < 0.
Proof.
  intros Hlt.
  pose proof (init_in_range _ _ _ _ decoded) as Hr.
  destruct (index_decoded self Hr) as (ver & _ & Hi).
  eexists. split; [exact Hi|]. cbn [Index.size]. fold hdr.
  destruct Hr as (_ & _ & _ & _ & _ & _ & _ & Hs & _). fold hdr in Hs.
  unfold unsigned in Hs. lia.
Qed.

(** C3, as the code has it.  For every container whose entry count is 0,
    computing the width of the index entries fails with the builtin
    [ZeroDivisionError] of the division, and so do the decoding of the index
    and the extraction of the records, from any state of the file. *)
Theorem empty_index_zero_division :
  Header.indexRecordEntryCount hdr = 0 ->
  DBPF._index_width self = Raise ZeroDivisionError
  /\ forall fd0,
       fst (DBPF._index_entries self fd0) = Raise ZeroDivisionError
       /\ fst (DBPF.records self fd0) = Raise ZeroDivisionError.
Proof.
  intros Hc.
  pose proof (init_in_range _ _ _ _ decoded) as Hr.
  destruct (index_decoded self Hr) as (ver & _ & Hi).
  assert (Hw : DBPF._index_width self = Raise ZeroDivisionError).
  { apply (index_width_zero self _ Hi). exact Hc. }
  split; [exact Hw|]. intros fd0.
  assert (He : fst (DBPF._index_entries self fd0) = Raise ZeroDivisionError).
  { unfold DBPF._index_entries, bind, lift. rewrite Hi, Hw. reflexivity. }
  split; [exact He|].
  rewrite records_unfold.
  destruct (DBPF._index_entries self fd0) as [[es|e] fd1]; [discriminate He|].
  cbn [fst] in He |- *. congruence.
Qed.

(** C4, as the code has it.  For every container whose entry count is not 0
    the width is the quotient of the index size by the entry count, truncated
    toward zero, with no test of divisibility: the product of count and width
    equals the index size exactly when the size is divisible by the count,
    and whatever exception index decoding raises is a builtin one (there is
    no error kind for an irregular index). *)
Theorem index_width_truncates (idx : Index.t) :
  DBPF.index self = Ok idx ->
  Index.count idx <> 0 ->
  DBPF._index_width self = Ok (Z.quot (Index.size idx) (Index.count idx))
  /\ (Index.count idx * Z.quot (Index.size idx) (Index.count idx) = Index.size idx
      <-> Z.rem (Index.size idx) (Index.count idx) = 0)
  /\ (forall fd0 fd1 e,
        DBPF._index_entries self fd0 = (Raise e, fd1) -> builtin e = true).
Proof.
  intros Hi Hc.
  pose proof (init_in_range _ _ _ _ decoded) as Hr.
  split; [exact (index_width_quot self idx Hr Hi Hc)|]. split.
  - pose proof (Z.quot_rem' (Index.size idx) (Index.count idx)). lia.
  - intros fd0 fd1 e. apply index_entries_raise.
Qed.



(** C7. For every decoded header the exposed version is the binary64 number
    nearest to the decimal whose integer digits are those of the major
    version and whose fraction digits are those of the minor version, that
    is (major * 10^d + minor) / 10^d with d the number of digits of the
    minor version; major 2 and minor 1 give exactly the float 2.1; the user
    version is computed in the same way from the user fields.  With a minor
    version of two digits or more that decimal is below major + 1, whereas
    major + minor / 10 is at least major + 1. *)
Theorem version_digit_concatenation :
  DBPF.version self
  = Ok (round_quot (Header.fileMajor hdr * 10 ^ ndigits (Header.fileMinor hdr)
                    + Header.fileMinor hdr)
                   (10 ^ ndigits (Header.fileMinor hdr)))
  /\ DBPF.user_version self
     = Ok (round_quot (Header.userMajor hdr * 10 ^ ndigits (Header.userMinor hdr)
                       + Header.userMinor hdr)
                      (10 ^ ndigits (Header.userMinor hdr)))
  /\ (Header.fileMajor hdr = 2 -> Header.fileMinor hdr = 1 ->
      DBPF.version self = Ok float_2_1)
  /\ (10 <= Header.fileMinor hdr ->
      Header.fileMajor hdr * 10 ^ ndigits (Header.fileMinor hdr)
        + Header.fileMinor hdr
      < (Header.fileMajor hdr + 1) * 10 ^ ndigits (Header.fileMinor hdr)
      /\ (Header.fileMajor hdr + 1) * 10
         <= Header.fileMajor hdr * 10 + Header.fileMinor hdr).
Proof.
  pose proof (init_in_range _ _ _ _ decoded) as Hr.
  destruct Hr as ([HM _] & [Hm _] & [HuM _] & [Hum _] & _). fold hdr in HM, Hm, HuM, Hum.
  assert (Hv : DBPF.version self
               = Ok (round_quot (Header.fileMajor hdr
                                 * 10 ^ ndigits (Header.fileMinor hdr)
                                 + Header.fileMinor hdr)
                                (10 ^ ndigits (Header.fileMinor hdr)))).
  { unfold DBPF.version. fold hdr. apply version_value; assumption. }
  split; [exact Hv|]. split; [|split].
  - unfold DBPF.user_version. fold hdr. apply version_value; assumption.
  - intros H2 H1. rewrite Hv, H2, H1. reflexivity.
  - intros H10. pose proof (ndigits_spec (Header.fileMinor hdr) ltac:(lia)) as [_ Hlt].
    split; lia.
Qed.

End Decoded.

Section Records.

Variables (self : DBPF.t) (fd fd1 : file) (es : list IndexEntry.t).
Hypothesis indexed : DBPF._index_entries self fd = (Ok es, fd1).

(** C8, as the code has it.  Once the index is decoded, record extraction
    does not fail.  For an entry whose payload window (position plus
    decompressed size) passes the end of the source, the record holds only
    the bytes between the position and the end of the source (none when the
    position is at or past the end), fewer than a nonzero decompressed size,
    which its length field reports all the same. *)
Theorem truncated_record_is_short :
  let data := contents fd in
  let len := Z.of_nat (List.length data) in
  exists fd2,
    DBPF.records self fd = (Ok (map (record_of data) es), fd2)
    /\ Forall (fun e =>
                 let r := record_of data e in
                 Record_.length r = IndexEntry.mnSizeDecompressed e
                 /\ (len < IndexEntry.mnPosition e + IndexEntry.mnSizeDecompressed e ->
                     Z.of_nat (List.length (Record_.raw r))
                     = Z.max 0 (len - IndexEntry.mnPosition e)
                     /\ (0 < IndexEntry.mnSizeDecompressed e ->
                         Z.of_nat (List.length (Record_.raw r)) < Record_.length r)))
              es.
Proof.
  intros data len.
  destruct (index_entries_ok self fd fd1 es indexed) as (Hr & Hc).
  destruct (for_each_records es fd1 Hr) as (fd2 & Hrec & _).
  exists fd2. split.
  - rewrite records_unfold, indexed, Hrec, Hc. reflexivity.
  - rewrite Forall_forall in Hr |- *. intros e Hin.
    destruct (Hr e Hin) as [[Hp _] [Hd _]].
    split; [reflexivity|]. intros Hpast.
    cbn [record_of Record_.raw Record_.length].
    rewrite read_bytes_length by assumption. subst len data. lia.
Qed.

End Records.

(** C6, as the code has it.  For every source of at least 96 bytes whose
    first 4 bytes are not [DBPF], [__init__] raises [DBPFException] ("Not a
    DBPF file") and returns no object, hence no header; a source of at least
    96 bytes that begins with [DBPF] passes the check and the object holds the
    header unpacked from its first 96 bytes; a source shorter than 96 bytes
    makes the unpacking raise [struct.error], whatever its first bytes. *)
Theorem init_magic_check (v : bool) (fd : file) :
  let data := contents fd in
  ((96 <= List.length data)%nat -> firstn 4 data <> DBPF.magic ->
   fst (DBPF.__init__ v fd) = Raise (DBPFException "Not a DBPF file"))
  /\ ((96 <= List.length data)%nat -> firstn 4 data = DBPF.magic ->
      fst (DBPF.__init__ v fd)
      = Ok {| DBPF.verbose := v;
              DBPF.header := header_of_bytes (firstn 96 data) |})
  /\ ((List.length data < 96)%nat -> fst (DBPF.__init__ v fd) = Raise StructError).
Proof.
  intros data. rewrite init_eq. cbv zeta. cbn [fst]. fold data.
  rewrite firstn_firstn. change (Nat.min 4 96) with 4%nat.
  rewrite length_firstn.
  split; [|split]; intros Hlen.
  - intros Hm. replace (Nat.min 96 (List.length data)) with 96%nat by lia.
    cbn [Nat.eqb].
    destruct (DBPF.bytes_eqb (firstn 4 data) DBPF.magic) eqn:E; [|reflexivity].
    apply bytes_eqb_eq in E. contradiction.
  - intros Hm. replace (Nat.min 96 (List.length data)) with 96%nat by lia.
    cbn [Nat.eqb]. rewrite Hm. reflexivity.
  - destruct (Nat.eqb_spec (Nat.min 96 (List.length data)) 96); [lia | reflexivity].
Qed.

(** ** The properties on the sample containers *)

Example version_2_1 : Util.version 2 1 = Ok float_2_1.
Proof. reflexivity. Qed.

(** Digits are joined, not added: minor 10 reads as the fraction [.10]. *)
Example version_2_10 :
  Util.version 2 10 = Ok float_2_1 /\ round_quot (2 * 10 + 10) 10 = float_3_0.
Proof. split; reflexivity. Qed.

Lemma index_offset_by_major_witness :
  (exists idx, DBPF.index (open_dbpf container_v1) = Ok idx
     /\ (Header.fileMajor (DBPF.header (open_dbpf container_v1)) = 1 ->
         Index.offset idx
         = Header.indexOffsetBytesV1 (DBPF.header (open_dbpf container_v1)) + 4)
     /\ (Header.fileMajor (DBPF.header (open_dbpf container_v1)) <> 1 ->
         Index.offset idx
         = Header.indexOffsetBytes (DBPF.header (open_dbpf container_v1)) + 4))
  /\ (exists idx, DBPF.index (open_dbpf container_v2) = Ok idx
     /\ (Header.fileMajor (DBPF.header (open_dbpf container_v2)) = 1 ->
         Index.offset idx
         = Header.indexOffsetBytesV1 (DBPF.header (open_dbpf container_v2)) + 4)
     /\ (Header.fileMajor (DBPF.header (open_dbpf container_v2)) <> 1 ->
         Index.offset idx
         = Header.indexOffsetBytes (DBPF.header (open_dbpf container_v2)) + 4)).
Proof.
  split.
  - apply (index_offset_by_major false (open_ container_v1) (at_ container_v1 96 0)).
    by_evaluation.
  - apply (index_offset_by_major false (open_ container_v2) (at_ container_v2 96 0)).
    by_evaluation.
Defined.

Lemma index_descriptor_witness :
  exists ver,
    Util.version 1 0 = Ok ver
    /\ DBPF.index (open_dbpf container_v2)
       = Ok {| Index.version := Float ver; Index.count := 2;
               Index.offset := 96 + 4; Index.size := 68 - 4 |}.
Proof.
  apply (index_descriptor false (open_ container_v2) (at_ container_v2 96 0)
                          (open_dbpf container_v2)).
  by_evaluation.
Defined.

(** C3 as stated fails: with an entry count of 0 the width computation
    raises [ZeroDivisionError], a builtin exception and not an error kind of
    the module. *)
Lemma empty_index_error_is_builtin :
  DBPF.__init__ false (open_ container_empty)
  = (Ok (open_dbpf container_empty), at_ container_empty 96 0)
  /\ Header.indexRecordEntryCount (DBPF.header (open_dbpf container_empty)) = 0
  /\ DBPF._index_width (open_dbpf container_empty) = Raise ZeroDivisionError
  /\ ~ (exists e, DBPF._index_width (open_dbpf container_empty) = Raise e
                  /\ module_defined e = true).
Proof.
  split; [by_evaluation|]. split; [by_evaluation|]. split; [by_evaluation|].
  intros (e & He & Hm).
  assert (Hw : DBPF._index_width (open_dbpf container_empty)
               = Raise ZeroDivisionError) by by_evaluation.
  rewrite Hw in He. injection He as <-. discriminate Hm.
Qed.

Lemma empty_index_zero_division_witness :
  Header.indexRecordEntryCount (DBPF.header (open_dbpf container_empty)) = 0
  /\ DBPF._index_width (open_dbpf container_empty) = Raise ZeroDivisionError
  /\ forall fd0,
       fst (DBPF._index_entries (open_dbpf container_empty) fd0)
       = Raise ZeroDivisionError
       /\ fst (DBPF.records (open_dbpf container_empty) fd0)
          = Raise ZeroDivisionError.
Proof.
  split; [by_evaluation|].
  apply (empty_index_zero_division false (open_ container_empty)
           (at_ container_empty 96 0) (open_dbpf container_empty));
    by_evaluation.
Defined.

(** C4 as stated fails: an index of 65 bytes with 2 entries is decoded, under
    the width 32, into three entries; no error is raised and the product of
    count and width is 64. *)
Lemma irregular_index_is_decoded :
  DBPF.__init__ false (open_ container_irregular)
  = (Ok (open_dbpf container_irregular), at_ container_irregular 96 0)
  /\ (exists ver, DBPF.index (open_dbpf container_irregular)
                  = Ok {| Index.version := Float ver; Index.count := 2;
                          Index.offset := 100; Index.size := 65 |})
  /\ Z.rem 65 2 <> 0
  /\ DBPF._index_width (open_dbpf container_irregular) = Ok 32
  /\ 2 * 32 <> 65
  /\ exists es fd1,
       DBPF._index_entries (open_dbpf container_irregular)
                           (at_ container_irregular 96 0) = (Ok es, fd1)
       /\ List.length es = 3%nat.
Proof.
  split; [by_evaluation|]. split; [eexists; by_evaluation|].
  split; [by_evaluation|]. split; [by_evaluation|]. split; [by_evaluation|].
  do 2 eexists. split; [vm_compute; reflexivity | reflexivity].
Qed.

Lemma index_width_truncates_witness :
  DBPF._index_width (open_dbpf container_irregular) = Ok (Z.quot 65 2)
  /\ (2 * Z.quot 65 2 = 65 <-> Z.rem 65 2 = 0)
  /\ (forall fd0 fd1 e,
        DBPF._index_entries (open_dbpf container_irregular) fd0 = (Raise e, fd1) ->
        builtin e = true).
Proof.
  apply (index_width_truncates false (open_ container_irregular)
           (at_ container_irregular 96 0) (open_dbpf container_irregular)
           ltac:(by_evaluation)
           {| Index.version := Float (S754_finite false 4503599627370496 (-52));
              Index.count := 2; Index.offset := 100; Index.size := 65 |});
    by_evaluation.
Defined.



(** C9 as stated fails: a declared size of 0 gives a descriptor of size -4,
    without any error. *)
Lemma tiny_index_size_is_negative :
  DBPF.__init__ false (open_ container_tiny)
  = (Ok (open_dbpf container_tiny), at_ container_tiny 96 0)
  /\ Header.indexRecordSizeBytes (DBPF.header (open_dbpf container_tiny)) < 4
  /\ DBPF.index (open_dbpf container_tiny)
     = Ok {| Index.version := Float (S754_finite false 4503599627370496 (-52));
             Index.count := 1; Index.offset := 100; Index.size := -4 |}.
Proof. repeat split; by_evaluation. Qed.

Lemma index_size_below_four_witness :
  Header.indexRecordSizeBytes (DBPF.header (open_dbpf container_tiny)) < 4
  /\ exists idx,
       DBPF.index (open_dbpf container_tiny) = Ok idx
       /\ Index.size idx = 0 - 4
       /\ -4 <= Index.size idx < 0.
Proof.
  split; [by_evaluation|].
  apply (index_size_below_four false (open_ container_tiny)
           (at_ container_tiny 96 0) (open_dbpf container_tiny));
    by_evaluation.
Defined.


(** C6 as stated fails: a source of four bytes other than the magic makes
    the unpacking raise [struct.error], not [DBPFException]. *)
Lemma short_source_raises_struct_error :
  firstn 4 short_source <> DBPF.magic
  /\ fst (DBPF.__init__ false (open_ short_source)) = Raise StructError
  /\ fst (DBPF.__init__ false (open_ short_source))
     <> Raise (DBPFException "Not a DBPF file").
Proof. repeat split; by_evaluation. Qed.

Lemma init_magic_check_witness :
  ((96 <= List.length foreign_source)%nat
   /\ firstn 4 foreign_source <> DBPF.magic
   /\ fst (DBPF.__init__ false (open_ foreign_source))
      = Raise (DBPFException "Not a DBPF file"))
  /\ ((96 <= List.length container_v2)%nat
      /\ firstn 4 container_v2 = DBPF.magic
      /\ fst (DBPF.__init__ false (open_ container_v2)) = Ok (open_dbpf container_v2))
  /\ ((List.length short_source < 96)%nat
      /\ fst (DBPF.__init__ false (open_ short_source)) = Raise StructError).
Proof.
  split; [|split].
  - assert (H1 : (96 <= List.length foreign_source)%nat) by by_evaluation.
    assert (H2 : firstn 4 foreign_source <> DBPF.magic) by by_evaluation.
    split; [exact H1|]. split; [exact H2|].
    exact (proj1 (init_magic_check false (open_ foreign_source)) H1 H2).
  - assert (H1 : (96 <= List.length container_v2)%nat) by by_evaluation.
    assert (H2 : firstn 4 container_v2 = DBPF.magic) by by_evaluation.
    split; [exact H1|]. split; [exact H2|].
    exact (proj1 (proj2 (init_magic_check false (open_ container_v2))) H1 H2).
  - assert (H1 : (List.length short_source < 96)%nat) by by_evaluation.
    split; [exact H1|].
    exact (proj2 (proj2 (init_magic_check false (open_ short_source))) H1).
Defined.

Lemma version_digit_concatenation_witness :
  DBPF.version (open_dbpf container_v2) = Ok (round_quot (2 * 10 ^ 1 + 1) (10 ^ 1))
  /\ DBPF.user_version (open_dbpf container_v2)
     = Ok (round_quot (0 * 10 ^ 1 + 0) (10 ^ 1))
  /\ DBPF.version (open_dbpf container_v2) = Ok float_2_1.
Proof.
  destruct (version_digit_concatenation false (open_ container_v2)
              (at_ container_v2 96 0) (open_dbpf container_v2)
              ltac:(by_evaluation)) as (H1 & H2 & H3 & _).
  split; [exact H1|]. split; [exact H2|].
  apply H3; by_evaluation.
Defined.

(** C8 as stated fails: the payload window of the entry passes the end of
    the source by 45 bytes; extraction succeeds and the record holds 5 raw
    bytes under a length of 50. *)
Lemma truncated_record_is_returned :
  (exists fd1,
     DBPF._index_entries (open_dbpf container_truncated) (at_ container_truncated 96 0)
     = (Ok [entry_of_bytes (mk_entry 10 20 30 132 50 50)], fd1))
  /\ Z.of_nat (List.length container_truncated) < 132 + 50
  /\ fst (DBPF.records (open_dbpf container_truncated) (at_ container_truncated 96 0))
     = Ok [ {| Record_.tgi := TGI.TGI 10 20 30; Record_.offset := 132;
               Record_.length := 50;
               Record_.raw := [x61; x62; x63; x64; x65] |} ].
Proof.
  split; [eexists; by_evaluation|]. split; by_evaluation.
Qed.

Lemma truncated_record_is_short_witness :
  let e := entry_of_bytes (mk_entry 10 20 30 132 50 50) in
  exists fd2,
    DBPF.records (open_dbpf container_truncated) (at_ container_truncated 96 0)
    = (Ok (map (record_of container_truncated) [e]), fd2)
    /\ Forall (fun e =>
                 let r := record_of container_truncated e in
                 Record_.length r = IndexEntry.mnSizeDecompressed e
                 /\ (Z.of_nat (List.length container_truncated)
                     < IndexEntry.mnPosition e + IndexEntry.mnSizeDecompressed e ->
                     Z.of_nat (List.length (Record_.raw r))
                     = Z.max 0 (Z.of_nat (List.length container_truncated)
                                - IndexEntry.mnPosition e)
                     /\ (0 < IndexEntry.mnSizeDecompressed e ->
                         Z.of_nat (List.length (Record_.raw r)) < Record_.length r)))
              [e].
Proof.
  intros e.
  apply (truncated_record_is_short (open_dbpf container_truncated)
           (at_ container_truncated 96 0) (at_ container_truncated 132 0) [e]).
  by_evaluation.
Defined.

(** ** Further properties: the layout is a bijection *)

Lemma le_bytes_length (w : nat) (n : Z) : List.length (le_bytes w n) = w.
Proof.
  revert n. induction w as [|w IH]; intros n; [reflexivity|].
  cbn [le_bytes]. destruct (Byte.of_N _); cbn [List.length]; now rewrite IH.
Qed.

Lemma le_uint_le_bytes (w : nat) (n : Z) :
  0 <= n < 2 ^ (8 * Z.of_nat w) -> le_uint (le_bytes w n) = n.
Proof.
  revert n. induction w as [|w IH]; intros n Hn.
  - cbn in *. lia.
  - cbn [le_bytes].
    replace (8 * Z.of_nat (S w)) with (8 + 8 * Z.of_nat w) in Hn by lia.
    rewrite Z.pow_add_r in Hn by lia. change (2 ^ 8) with 256 in Hn.
    pose proof (Z.mod_pos_bound n 256 ltac:(lia)) as Hm.
    pose proof (Z.div_mod n 256 ltac:(lia)) as Hd.
    destruct (Byte.of_N (Z.to_N (n mod 256))) as [b|] eqn:E.
    + apply Byte.to_of_N in E. cbn [le_uint]. rewrite E, IH.
      * lia.
      * split; [apply Z.div_pos; lia | apply Z.div_lt_upper_bound; lia].
    + apply Byte.of_N_None_iff in E. lia.
Qed.

Lemma le_bytes_le_uint (b : list byte) : le_bytes (List.length b) (le_uint b) = b.
Proof.
  induction b as [|x b IH]; [reflexivity|].
  cbn [List.length le_uint le_bytes].
  pose proof (Byte.to_N_bounded x) as Hx.
  assert (Hr : 0 <= le_uint b)
    by (rewrite <- (firstn_all b); apply le_uint_firstn).
  replace ((Z.of_N (Byte.to_N x) + 256 * le_uint b) mod 256)
    with (Z.of_N (Byte.to_N x))
    by (apply Z.mod_unique with (q := le_uint b); lia).
  replace ((Z.of_N (Byte.to_N x) + 256 * le_uint b) / 256) with (le_uint b)
    by (apply Z.div_unique with (r := Z.of_N (Byte.to_N x)); lia).
  rewrite N2Z.id, Byte.of_to_N, IH. reflexivity.
Qed.

Lemma encode_length (c : fmt) (v : value) :
  fits c v -> List.length (encode c v) = width c.
Proof.
  destruct c, v; cbn [fits encode width]; try contradiction;
    intros H; try exact H; apply le_bytes_length.
Qed.

Lemma decode_encode (c : fmt) (v : value) :
  fits c v -> decode c (encode c v) = v.
Proof.
  destruct c, v; cbn [fits encode decode]; try contradiction; intros H;
    try reflexivity; f_equal; apply le_uint_le_bytes; exact H.
Qed.

(** Unpacking what was packed gives the values back, whatever follows. *)
Lemma unpack_pack (f : list fmt) (vals : list value) (rest : list byte) :
  Forall2 fits f vals ->
  unpack_fields f (pack_fields f vals ++ rest) = vals.
Proof.
  intros H. induction H as [|c v f vals Hc _ IH]; [reflexivity|].
  cbn [pack_fields]. rewrite <- app_assoc.
  pose proof (encode_length c v Hc) as Hl.
  assert (Hstep :
    unpack_fields (c :: f) (encode c v ++ pack_fields f vals ++ rest)
    = decode c (firstn (width c) (encode c v ++ pack_fields f vals ++ rest))
      :: unpack_fields f (skipn (width c)
                                (encode c v ++ pack_fields f vals ++ rest))).
  { destruct c; [destruct Hc | | | |]; reflexivity. }
  rewrite Hstep, <- Hl, firstn_app, skipn_app.
  rewrite firstn_all, skipn_all, Nat.sub_diag. cbn [firstn skipn].
  rewrite List.app_nil_r, decode_encode by assumption. cbn [List.app].
  now rewrite IH.
Qed.

Lemma pack_fields_length (f : list fmt) (vals : list value) :
  Forall2 fits f vals -> List.length (pack_fields f vals) = size f.
Proof.
  intros H. induction H as [|c v f vals Hc _ IH]; [reflexivity|].
  cbn [pack_fields]. rewrite length_app, encode_length, IH by assumption.
  reflexivity.
Qed.

(** Packing what was unpacked gives the buffer back. *)
Lemma pack_unpack (f : list fmt) (buf : list byte) :
  Forall (fun c => c <> LittleEndian) f ->
  List.length buf = size f ->
  pack_fields f (unpack_fields f buf) = buf.
Proof.
  intros H. revert buf. induction H as [|c f Hc _ IH]; intros buf Hlen.
  - destruct buf; [reflexivity | discriminate].
  - assert (Hstep : unpack_fields (c :: f) buf
                    = decode c (firstn (width c) buf)
                      :: unpack_fields f (skipn (width c) buf)).
    { destruct c; [contradiction | | | |]; reflexivity. }
    rewrite Hstep. cbn [pack_fields].
    change (size (c :: f)) with (width c + size f)%nat in Hlen.
    rewrite IH by (rewrite length_skipn; lia).
    assert (Hf : List.length (firstn (width c) buf) = width c)
      by (rewrite length_firstn; lia).
    replace (encode c (decode c (firstn (width c) buf)))
      with (firstn (width c) buf).
    + apply firstn_skipn.
    + destruct c; cbn [decode encode]; try reflexivity;
        rewrite <- Hf at 2; now rewrite le_bytes_le_uint.
Qed.

Lemma header_values_unpack (buf : list byte) :
  header_values (header_of_bytes buf) = unpack_fields (codes HeaderStruct) buf.
Proof.
  cbn [codes tl HeaderStruct headerTemplate map snd unpack_fields width decode].
  unfold header_values, header_of_bytes, field. cbn [Header.fileIdentifier
    Header.fileMajor Header.fileMinor Header.userMajor Header.userMinor
    Header.flags Header.creationTime Header.updatedTime
    Header.indexRecordMajorVersion Header.indexRecordEntryCount
    Header.indexOffsetBytesV1 Header.indexRecordSizeBytes
    Header.holeIndexEntryCount Header.holeIndexOffset Header.holeIndexSize
    Header.indexMinorVersion Header.indexOffsetBytes Header.reserved].
  rewrite !skipn_skipn. reflexivity.
Qed.


Lemma header_codes_plain : Forall (fun c => c <> LittleEndian) (codes HeaderStruct).
Proof. repeat constructor; discriminate. Qed.


(** A block of 96 bytes is rebuilt from the header unpacked from it, a
    chunk of 32 bytes from its entry. *)
Lemma pack_header_of_bytes (buf : list byte) :
  List.length buf = 96%nat -> pack_header (header_of_bytes buf) = buf.
Proof.
  intros H. unfold pack_header. rewrite header_values_unpack.
  apply pack_unpack; [exact header_codes_plain | exact H].
Qed.


Lemma header_of_pack (h : Header.t) (rest : list byte) :
  header_fits h -> header_of_bytes (firstn 96 (pack_header h ++ rest)) = h.
Proof.
  intros Hf.
  pose proof (pack_fields_length _ _ Hf) as Hl.
  change (size (codes HeaderStruct)) with 96%nat in Hl. fold (pack_header h) in Hl.
  rewrite <- Hl at 1. rewrite firstn_app, firstn_all, Nat.sub_diag.
  cbn [firstn]. rewrite List.app_nil_r.
  pose proof (unpack_pack _ _ [] Hf) as Hu. rewrite List.app_nil_r in Hu.
  fold (pack_header h) in Hu. rewrite <- header_values_unpack in Hu.
  destruct h, (header_of_bytes (pack_header _)). injection Hu.
  intros; subst; reflexivity.
Qed.


Lemma header_of_bytes_fits (buf : list byte) :
  List.length buf = 96%nat -> header_fits (header_of_bytes buf).
Proof.
  intros H. unfold header_fits, header_values, header_of_bytes.
  cbn [codes tl HeaderStruct headerTemplate map snd Header.fileIdentifier
    Header.fileMajor Header.fileMinor Header.userMajor Header.userMinor
    Header.flags Header.creationTime Header.updatedTime
    Header.indexRecordMajorVersion Header.indexRecordEntryCount
    Header.indexOffsetBytesV1 Header.indexRecordSizeBytes
    Header.holeIndexEntryCount Header.holeIndexOffset Header.holeIndexSize
    Header.indexMinorVersion Header.indexOffsetBytes Header.reserved].
  repeat (constructor; [first [apply (field_uint buf _ 4)
                              | apply (field_uint buf _ 8)
                              | cbn [fits]; rewrite length_firstn, ?length_skipn; lia]|]).
  constructor.
Qed.

Lemma entry_of_bytes_fits (buf : list byte) : entry_fits (entry_of_bytes buf).
Proof.
  unfold entry_fits, entry_values, entry_of_bytes.
  cbn [codes tl IndexEntryStruct indexEntryTemplate map snd IndexEntry.mType
    IndexEntry.mGroup IndexEntry.mInstanceEx IndexEntry.mInstance
    IndexEntry.mnPosition IndexEntry.mnSize IndexEntry.mnSizeDecompressed
    IndexEntry.mnCompressionType IndexEntry.mnCommitted].
  repeat (constructor; [first [apply (field_uint buf _ 4)
                              | apply (field_uint buf _ 2)]|]).
  constructor.
Qed.

(** *** The constructor and the header *)

(** X1. Whatever the state of the file, [__init__] leaves its bytes as they
    are and the cursor after the bytes it read, 96 of them or the whole of a
    shorter file; its outcome does not depend on where the cursor was. *)
Theorem init_file_effect (v : bool) (fd : file) :
  contents (snd (DBPF.__init__ v fd)) = contents fd
  /\ cursor (snd (DBPF.__init__ v fd))
     = Z.min 96 (Z.of_nat (List.length (contents fd)))
  /\ fst (DBPF.__init__ v fd) = fst (DBPF.__init__ v (open_ (contents fd))).
Proof.
  rewrite !init_eq. cbv zeta. cbn [snd fst at_ contents cursor open_].
  split; [reflexivity|]. split; [|reflexivity].
  rewrite length_firstn. lia.
Qed.

Section DecodedHeader.

Variables (v : bool) (fd fd' : file) (self : DBPF.t).
Hypothesis decoded : DBPF.__init__ v fd = (Ok self, fd').

(** X2. The header of every object [__init__] returns has the identifier
    [DBPF], 24 reserved bytes and integer fields within their unsigned
    widths, every one of its 18 fields fitting its format code; so [flags],
    [ctime] and [mtime] are unsigned 32-bit values, and the object keeps the
    verbosity it was given. *)
Theorem decoded_header_invariants :
  Header.fileIdentifier (DBPF.header self) = DBPF.magic
  /\ List.length (Header.reserved (DBPF.header self)) = 24%nat
  /\ header_in_range (DBPF.header self)
  /\ header_fits (DBPF.header self)
  /\ unsigned 32 (DBPF.flags self)
  /\ unsigned 32 (DBPF.ctime self)
  /\ unsigned 32 (DBPF.mtime self)
  /\ DBPF.verbose self = v.
Proof.
  destruct (init_decoded _ _ _ _ decoded) as (-> & Hlen & Hm & _).
  assert (Hfits : header_fits (header_of_bytes (firstn 96 (contents fd))))
    by (apply header_of_bytes_fits; rewrite length_firstn; lia).
  split; [|split; [|split; [apply header_of_bytes_in_range|split; [exact Hfits|]]]].
  - cbn [DBPF.header header_of_bytes Header.fileIdentifier].
    rewrite firstn_firstn. exact Hm.
  - cbn [DBPF.header header_of_bytes Header.reserved].
    rewrite length_firstn, length_skipn, length_firstn. lia.
  - cbn [DBPF.header DBPF.verbose DBPF.flags DBPF.ctime DBPF.mtime
         header_of_bytes Header.flags Header.creationTime Header.updatedTime].
    repeat split; apply (field_uint _ _ 4).
Qed.

(** X6. The descriptor of the hole table is computed without any failure
    and without adjustment: its version is the int 0 and its count, offset
    and size are the three hole fields of the header, unsigned 32-bit values;
    unlike the size of the resource index, its size is never negative. *)
Theorem holes_descriptor :
  Index.version (DBPF.holes self) = Int 0
  /\ Index.count (DBPF.holes self) = field (contents fd) 48 4
  /\ Index.offset (DBPF.holes self) = field (contents fd) 52 4
  /\ Index.size (DBPF.holes self) = field (contents fd) 56 4
  /\ unsigned 32 (Index.count (DBPF.holes self))
  /\ unsigned 32 (Index.offset (DBPF.holes self))
  /\ unsigned 32 (Index.size (DBPF.holes self)).
Proof.
  destruct (init_decoded _ _ _ _ decoded) as (-> & Hlen & _ & _).
  cbn [DBPF.holes DBPF.header Index.version Index.count Index.offset Index.size
       header_of_bytes Header.holeIndexEntryCount Header.holeIndexOffset
       Header.holeIndexSize].
  assert (Hf : forall off, (off + 4 <= 96)%nat ->
                 field (firstn 96 (contents fd)) off 4 = field (contents fd) off 4).
  { intros off Ho. unfold field. rewrite skipn_firstn_comm, firstn_firstn.
    now replace (Nat.min 4 (96 - off)) with 4%nat by lia. }
  rewrite !Hf by lia.
  repeat split; apply (field_uint _ _ 4).
Qed.

(** X3. Decoding loses nothing: two sources from which [__init__] builds
    the same header have the same first 96 bytes. *)
Theorem header_decoding_injective (v2 : bool) (fd2 fd2' : file) (self2 : DBPF.t) :
  DBPF.__init__ v2 fd2 = (Ok self2, fd2') ->
  DBPF.header self = DBPF.header self2 ->
  firstn 96 (contents fd) = firstn 96 (contents fd2).
Proof.
  intros decoded2 Heq.
  destruct (init_decoded _ _ _ _ decoded) as (-> & Hlen & _ & _).
  destruct (init_decoded _ _ _ _ decoded2) as (-> & Hlen2 & _ & _).
  cbn [DBPF.header] in Heq.
  rewrite <- (pack_header_of_bytes (firstn 96 (contents fd)))
    by (rewrite length_firstn; lia).
  rewrite <- (pack_header_of_bytes (firstn 96 (contents fd2)))
    by (rewrite length_firstn; lia).
  now rewrite Heq.
Qed.

End DecodedHeader.

(** X4. Every header whose fields fit their format codes and whose
    identifier is [DBPF] is the header of some block of 96 bytes: whatever
    bytes follow the block and wherever the cursor is, [__init__] returns an
    object with exactly that header. *)
Theorem header_decoding_surjective (h : Header.t) :
  header_fits h ->
  Header.fileIdentifier h = DBPF.magic ->
  exists block,
    List.length block = 96%nat
    /\ forall v rest c r,
         fst (DBPF.__init__ v (at_ (block ++ rest) c r))
         = Ok {| DBPF.verbose := v; DBPF.header := h |}.
Proof.
  intros Hf Hm. exists (pack_header h).
  pose proof (pack_fields_length _ _ Hf) as Hl.
  change (size (codes HeaderStruct)) with 96%nat in Hl. fold (pack_header h) in Hl.
  split; [exact Hl|]. intros v rest c r.
  rewrite init_eq. cbv zeta. cbn [fst at_ contents].
  rewrite firstn_firstn. change (Nat.min 4 96) with 4%nat.
  rewrite (header_of_pack h rest Hf).
  replace (List.length (firstn 96 (pack_header h ++ rest))) with 96%nat
    by (rewrite length_firstn, length_app; lia).
  cbn [Nat.eqb].
  replace (firstn 4 (pack_header h ++ rest)) with DBPF.magic.
  - reflexivity.
  - rewrite <- Hm. unfold pack_header.
    cbn [codes tl HeaderStruct headerTemplate map snd header_values pack_fields
         encode].
    rewrite <- List.app_assoc.
    assert (H4 : List.length (Header.fileIdentifier h) = 4%nat) by now rewrite Hm.
    rewrite <- H4 at 1. rewrite firstn_app, firstn_all, Nat.sub_diag.
    cbn [firstn]. now rewrite List.app_nil_r.
Qed.


(** *** Index decoding and record extraction *)



















Lemma records_closed_form (self : DBPF.t) (fd : file) :
  fst (DBPF.records self fd)
  = match fst (DBPF._index_entries self fd) with
    | Ok es => Ok (map (record_of (contents fd)) es)
    | Raise e => Raise e
    end.
Proof.
  rewrite records_unfold.
  destruct (DBPF._index_entries self fd) as [[es|e] fd1] eqn:E; [|reflexivity].
  destruct (index_entries_ok _ _ _ _ E) as (Hr & Hc).
  destruct (for_each_records es fd1 Hr) as (fd2 & Hrec & _).
  rewrite Hrec, Hc. reflexivity.
Qed.

Lemma range_len_ge_count (size count : Z) :
  0 < count -> Z.quot size count <> 0 ->
  count <= range_len 0 size (Z.quot size count).
Proof.
  intros Hc Hw. pose proof (quot_sign size count Hc) as [Hp Hn].
  unfold range_len.
  destruct (Z.ltb_spec 0 (Z.quot size count)) as [Hq|Hq].
  - specialize (Hp Hq). destruct (Z.ltb_spec 0 size); [|lia].
    rewrite Z.quot_div_nonneg in * by lia.
    pose proof (Z.mul_div_le size count Hc).
    assert (count - 1 <= (size - 0 - 1) / (size / count)); [|lia].
    apply Z.div_le_lower_bound; [lia|]. nia.
  - assert (Hq' : Z.quot size count < 0) by lia. specialize (Hn Hq').
    destruct (Z.ltb_spec size 0); [|lia].
    assert (Hopp : Z.quot size count = - ((- size) / count)).
    { rewrite <- (Z.opp_involutive size) at 1.
      rewrite Z.quot_opp_l, Z.quot_div_nonneg by lia. reflexivity. }
    rewrite Hopp in *. rewrite Z.opp_involutive.
    pose proof (Z.mul_div_le (- size) count Hc).
    assert (count - 1 <= (0 - size - 1) / (- size / count)); [|lia].
    apply Z.div_le_lower_bound; [lia|]. nia.
Qed.

Lemma index_entries_empty (self : DBPF.t) (idx : Index.t) (fd0 : file) :
  DBPF.index self = Ok idx -> Index.count idx = 0 ->
  fst (DBPF._index_entries self fd0) = Raise ZeroDivisionError.
Proof.
  intros Hi Hc. unfold DBPF._index_entries, bind, lift.
  rewrite Hi, (index_width_zero self idx Hi Hc). reflexivity.
Qed.

Section DecodedIndex.

Variables (v : bool) (fd fd' : file) (self : DBPF.t).
Hypothesis decoded : DBPF.__init__ v fd = (Ok self, fd').

Let count := Header.indexRecordEntryCount (DBPF.header self).
Let declared := Header.indexRecordSizeBytes (DBPF.header self).
Let offset :=
  (if Header.fileMajor (DBPF.header self) =? 1
   then Header.indexOffsetBytesV1 (DBPF.header self)
   else Header.indexOffsetBytes (DBPF.header self)) + 4.


(** X8. When index decoding succeeds, the entries it returns number
    [len(range(0, size, width))], never fewer than the declared entry count
    (which is then at least 1), and exactly the declared count if and only
    if the index size is the product of count and width. *)
Theorem decoded_entries_number (fd0 fd1 : file) (es : list IndexEntry.t) :
  DBPF._index_entries self fd0 = (Ok es, fd1) ->
  exists idx w,
    DBPF.index self = Ok idx
    /\ DBPF._index_width self = Ok w
    /\ Z.of_nat (List.length es) = range_len 0 (Index.size idx) w
    /\ 1 <= Index.count idx <= Z.of_nat (List.length es)
    /\ (Z.of_nat (List.length es) = Index.count idx
        <-> Index.size idx = w * Index.count idx).
Proof.
  intros E.
  pose proof (init_in_range _ _ _ _ decoded) as Hr.
  destruct (index_decoded self Hr) as (ver & _ & Hi).
  set (idx := {| Index.version := Float ver |}) in Hi.
  pose proof (index_bounds self idx Hr Hi) as (Bc & Bs & Bo).
  assert (H0 : Index.count idx <> 0).
  { intros H0. pose proof (index_entries_empty self idx fd0 Hi H0) as Hz.
    rewrite E in Hz. discriminate Hz. }
  pose proof (index_width_quot self idx Hr Hi H0) as Hw.
  set (w := Z.quot (Index.size idx) (Index.count idx)) in *.
  exists idx, w. split; [exact Hi|]. split; [exact Hw|].
  rewrite (index_entries_unfold self idx w fd0 Hi Hw) in E.
  destruct (seek (Index.offset idx) fd0) as [[[]|e] fd2]; [|discriminate].
  assert (Hw0 : w <> 0).
  { intros Hz. rewrite Hz in E. unfold range in E. cbn [Z.eqb] in E.
    discriminate. }
  destruct (range_steps 0 (Index.size idx) w Hw0) as (steps & Hrange & Hlen).
  rewrite Hrange in E. apply for_each_read_entry_ok in E as (_ & _ & Hl).
  pose proof (range_len_ge_count (Index.size idx) (Index.count idx)
                ltac:(lia) Hw0) as Hge.
  fold w in Hge.
  assert (HL : Z.of_nat (List.length es) = range_len 0 (Index.size idx) w)
    by lia.
  split; [exact HL|]. split; [lia|]. rewrite HL.
  pose proof (quot_sign (Index.size idx) (Index.count idx) ltac:(lia))
    as [Hp Hn]. fold w in Hp, Hn.
  pose proof (Z.quot_rem' (Index.size idx) (Index.count idx)) as Hqr.
  fold w in Hqr.
  unfold range_len in *.
  destruct (Z.ltb_spec 0 w) as [Hpos|Hneg].
  - specialize (Hp Hpos). destruct (Z.ltb_spec 0 (Index.size idx)); [|lia].
    pose proof (Z.rem_bound_pos (Index.size idx) (Index.count idx)
                  ltac:(lia) ltac:(lia)) as Hrem.
    pose proof (Z.mul_div_le (Index.size idx - 0 - 1) w Hpos) as Hd1.
    pose proof (Z.mul_succ_div_gt (Index.size idx - 0 - 1) w Hpos) as Hd2.
    set (q := (Index.size idx - 0 - 1) / w) in *.
    split; intros Heq; nia.
  - assert (Hw' : w < 0) by lia. specialize (Hn Hw').
    destruct (Z.ltb_spec (Index.size idx) 0); [|lia].
    pose proof (Z.rem_bound_pos_neg (Index.size idx) (Index.count idx)
                  ltac:(lia) ltac:(lia)) as Hrem.
    pose proof (Z.mul_div_le (0 - Index.size idx - 1) (- w) ltac:(lia)) as Hd1.
    pose proof (Z.mul_succ_div_gt (0 - Index.size idx - 1) (- w) ltac:(lia))
      as Hd2.
    set (q := (0 - Index.size idx - 1) / (- w)) in *.
    split; intros Heq; nia.
Qed.

(** X9. An index smaller in size than its entry count cannot be decoded:
    with a nonzero count above the absolute value of the index size (the
    declared size minus 4), the width is 0 and index decoding raises
    [ValueError], from any state of the file, unless the index offset is one
    the file system refuses, in which case the seek raises [OSError]. *)
Theorem undersized_index_value_error (fd0 : file) :
  0 < count ->
  Z.abs (declared - 4) < count ->
  DBPF._index_width self = Ok 0
  /\ (offset <= max_offset fd0 \/ 2 ^ 63 <= offset ->
      fst (DBPF._index_entries self fd0) = Raise ValueError)
  /\ (max_offset fd0 < offset < 2 ^ 63 ->
      fst (DBPF._index_entries self fd0) = Raise OSError).
Proof.
  intros Hc Hs.
  pose proof (init_in_range _ _ _ _ decoded) as Hr.
  destruct (index_decoded self Hr) as (ver & _ & Hi).
  set (idx := {| Index.version := Float ver |}) in Hi.
  pose proof (index_width_quot self idx Hr Hi ltac:(cbn; fold count; lia)) as Hw.
  assert (Hq : Z.quot (Index.size idx) (Index.count idx) = 0).
  { apply Z.quot_small_iff; cbn [idx Index.size Index.count];
      fold count declared; lia. }
  rewrite Hq in Hw. split; [exact Hw|].
  pose proof (index_bounds self idx Hr Hi) as (_ & _ & Bo).
  rewrite (index_entries_unfold self idx 0 fd0 Hi Hw).
  change (Index.offset idx) with offset in *.
  split.
  - intros [Hnear|Hunfit].
    + destruct (Z_lt_le_dec offset (2 ^ 63)).
      * rewrite seek_at by lia. reflexivity.
      * rewrite seek_unfit by lia. reflexivity.
    + rewrite seek_unfit by lia. reflexivity.
  - intros Hfar. now rewrite seek_beyond.
Qed.

End DecodedIndex.


(** *** The version of two ints *)

Lemma str_neg (p : positive) :
  str (Zneg p) = String "-" (NilEmpty.string_of_uint (Pos.to_uint p)).
Proof.
  unfold str. cbn [Z.to_int NilZero.string_of_int]. f_equal.
  unfold NilZero.string_of_uint.
  pose proof (Unsigned.to_uint_nonnil p) as H.
  destruct (Pos.to_uint p); [contradiction| ..]; reflexivity.
Qed.

Lemma uint_of_string_minus (s : string) :
  NilEmpty.uint_of_string (String "-" s) = None.
Proof. cbn [NilEmpty.uint_of_string]. destruct (NilEmpty.uint_of_string s); reflexivity. Qed.

Lemma decimal_fraction_digits (u1 u2 : uint) :
  u1 <> Nil ->
  decimal_fraction (NilEmpty.string_of_uint u1
                    ++ String "." (NilEmpty.string_of_uint u2))
  = Some (Z.of_uint u1 * 10 ^ Z.of_nat (nb_digits u2) + Z.of_uint u2,
          10 ^ Z.of_nat (nb_digits u2)).
Proof.
  intros Hn. unfold decimal_fraction.
  rewrite partition_dot_digits, !NilEmpty.usu.
  destruct u1; [contradiction| ..]; reflexivity.
Qed.

Lemma decimal_fraction_minus (u1 : uint) (s : string) :
  decimal_fraction (NilEmpty.string_of_uint u1 ++ String "." (String "-" s))
  = None.
Proof.
  unfold decimal_fraction. rewrite partition_dot_digits, uint_of_string_minus.
  destruct (NilEmpty.string_of_uint u1);
    destruct (NilEmpty.uint_of_string _); reflexivity.
Qed.

Lemma float_of_str_unsigned (u1 : uint) (t : string) :
  float_of_str (NilEmpty.string_of_uint u1 ++ String "." t)
  = match decimal_fraction (NilEmpty.string_of_uint u1 ++ String "." t) with
    | Some (n, d) => Ok (round_quot n d)
    | None => Raise ValueError
    end.
Proof. unfold float_of_str. destruct u1; reflexivity. Qed.

Lemma float_of_str_signed (body : string) :
  float_of_str (String "-" body)
  = match decimal_fraction body with
    | Some (n, d) => Ok (SFopp (round_quot n d))
    | None => Raise ValueError
    end.
Proof. reflexivity. Qed.

(** X11. [version] on any two ints that [str] converts (ints of at most
    4300 digits).  A negative minor makes [float] refuse the string and
    [ValueError] is raised; with a minor that is not negative the result is
    the float nearest to the decimal made of the digits of the absolute value
    of the major, a dot and the digits of the minor, negated when the major
    is negative. *)
Theorem version_on_ints (major minor : Z) :
  str_convertible major -> str_convertible minor ->
  (minor < 0 -> Util.version major minor = Raise ValueError)
  /\ (0 <= major -> 0 <= minor ->
      Util.version major minor
      = Ok (round_quot (major * 10 ^ ndigits minor + minor)
                       (10 ^ ndigits minor)))
  /\ (major < 0 -> 0 <= minor ->
      Util.version major minor
      = Ok (SFopp (round_quot (- major * 10 ^ ndigits minor + minor)
                              (10 ^ ndigits minor)))).
Proof.
  intros _ _. split; [|split].
  - intros Hm. destruct minor as [|q|q]; try lia.
    unfold Util.version.
    change (join "." [str major; str (Zneg q)])
      with (str major ++ String "." (str (Zneg q)))%string.
    rewrite str_neg. destruct major as [|p|p].
    + rewrite (str_nonneg 0) by lia.
      now rewrite float_of_str_unsigned, decimal_fraction_minus.
    + rewrite (str_nonneg (Zpos p)) by lia.
      now rewrite float_of_str_unsigned, decimal_fraction_minus.
    + rewrite str_neg. cbn [append].
      now rewrite float_of_str_signed, decimal_fraction_minus.
  - apply version_value.
  - intros HM Hm. destruct major as [|p|p]; try lia.
    unfold Util.version.
    change (join "." [str (Zneg p); str minor])
      with (str (Zneg p) ++ String "." (str minor))%string.
    rewrite str_neg, (str_nonneg minor Hm). cbn [append].
    rewrite float_of_str_signed, decimal_fraction_digits
      by apply Unsigned.to_uint_nonnil.
    rewrite (of_uint_digits minor Hm). fold (ndigits minor).
    change (Pos.to_uint p) with (digits (Zpos p)).
    rewrite of_uint_digits by lia. reflexivity.
Qed.

(** *** The records *)

(** X12. Every record that [records] returns carries an offset and a length
    that are unsigned 32-bit values, and its raw bytes are the slice of the
    file that starts at the offset and stops after [length] bytes or at the
    end of the file: never more bytes than the length says, and exactly
    [min(length, max(0, file size - offset))] of them. *)
Theorem record_invariants (self : DBPF.t) (fd : file) (recs : list Record_.t) :
  fst (DBPF.records self fd) = Ok recs ->
  Forall (fun r =>
            unsigned 32 (Record_.offset r)
            /\ unsigned 32 (Record_.length r)
            /\ Record_.raw r
               = firstn (Z.to_nat (Record_.length r))
                        (skipn (Z.to_nat (Record_.offset r)) (contents fd))
            /\ Z.of_nat (List.length (Record_.raw r))
               = Z.min (Record_.length r)
                       (Z.max 0 (Z.of_nat (List.length (contents fd))
                                 - Record_.offset r)))
         recs.
Proof.
  rewrite records_closed_form.
  destruct (DBPF._index_entries self fd) as [[es|e] fd1] eqn:E;
    cbn [fst]; [|discriminate].
  intros [= <-]. destruct (index_entries_ok _ _ _ _ E) as (Hr & _).
  apply Forall_map. rewrite Forall_forall in Hr |- *. intros e Hin.
  destruct (Hr e Hin) as [Hp Hd].
  cbn [record_of Record_.offset Record_.length Record_.raw].
  split; [exact Hp|]. split; [exact Hd|].
  destruct Hp as [Hp _], Hd as [Hd _]. split.
  - unfold read_bytes. destruct (Z.ltb_spec (IndexEntry.mnSizeDecompressed e) 0);
      [lia | reflexivity].
  - apply read_bytes_length; assumption.
Qed.

(** *** The further properties on the sample containers *)

Lemma decoded_header_invariants_witness :
  Header.fileIdentifier (DBPF.header (open_dbpf container_v2)) = DBPF.magic
  /\ List.length (Header.reserved (DBPF.header (open_dbpf container_v2))) = 24%nat
  /\ header_in_range (DBPF.header (open_dbpf container_v2))
  /\ header_fits (DBPF.header (open_dbpf container_v2))
  /\ unsigned 32 (DBPF.flags (open_dbpf container_v2))
  /\ unsigned 32 (DBPF.ctime (open_dbpf container_v2))
  /\ unsigned 32 (DBPF.mtime (open_dbpf container_v2))
  /\ DBPF.verbose (open_dbpf container_v2) = false.
Proof.
  apply (decoded_header_invariants false (open_ container_v2)
           (at_ container_v2 96 0) (open_dbpf container_v2)).
  by_evaluation.
Defined.

Lemma holes_descriptor_witness :
  Index.version (DBPF.holes (open_dbpf container_v2)) = Int 0
  /\ Index.count (DBPF.holes (open_dbpf container_v2)) = field container_v2 48 4
  /\ Index.offset (DBPF.holes (open_dbpf container_v2)) = field container_v2 52 4
  /\ Index.size (DBPF.holes (open_dbpf container_v2)) = field container_v2 56 4
  /\ unsigned 32 (Index.count (DBPF.holes (open_dbpf container_v2)))
  /\ unsigned 32 (Index.offset (DBPF.holes (open_dbpf container_v2)))
  /\ unsigned 32 (Index.size (DBPF.holes (open_dbpf container_v2))).
Proof.
  apply (holes_descriptor false (open_ container_v2) (at_ container_v2 96 0)
                          (open_dbpf container_v2)).
  by_evaluation.
Defined.

Lemma header_decoding_injective_witness :
  container_v2 <> header_block_v2
  /\ firstn 96 container_v2 = firstn 96 header_block_v2.
Proof.
  split; [by_evaluation|].
  apply (header_decoding_injective false (open_ container_v2)
           (at_ container_v2 96 0) (open_dbpf container_v2)
           ltac:(by_evaluation)
           true (open_ header_block_v2) (at_ header_block_v2 96 0)
           {| DBPF.verbose := true;
              DBPF.header := DBPF.header (open_dbpf container_v2) |});
    by_evaluation.
Defined.

Lemma header_decoding_surjective_witness :
  exists block,
    List.length block = 96%nat
    /\ forall v rest c r,
         fst (DBPF.__init__ v (at_ (block ++ rest) c r))
         = Ok {| DBPF.verbose := v;
                 DBPF.header := DBPF.header (open_dbpf container_v1) |}.
Proof.
  apply (header_decoding_surjective (DBPF.header (open_dbpf container_v1))).
  - repeat constructor; by_evaluation.
  - by_evaluation.
Defined.



Lemma decoded_entries_number_witness :
  exists idx w,
    DBPF.index (open_dbpf container_irregular) = Ok idx
    /\ DBPF._index_width (open_dbpf container_irregular) = Ok w
    /\ Z.of_nat 3 = range_len 0 (Index.size idx) w
    /\ 1 <= Index.count idx <= Z.of_nat 3
    /\ (Z.of_nat 3 = Index.count idx <-> Index.size idx = w * Index.count idx).
Proof.
  apply (decoded_entries_number false (open_ container_irregular)
           (at_ container_irregular 96 0) (open_dbpf container_irregular)
           ltac:(by_evaluation)
           (at_ container_irregular 96 0) (at_ container_irregular 196 0)
           [entry_of_bytes (mk_entry 10 20 30 0 0 0);
            entry_of_bytes (mk_entry 11 21 31 0 0 0);
            entry_of_bytes (mk_entry 12 22 32 0 0 0)]).
  by_evaluation.
Defined.

Lemma undersized_index_value_error_witness :
  (DBPF._index_width (open_dbpf container_undersized) = Ok 0
   /\ fst (DBPF._index_entries (open_dbpf container_undersized)
                               (at_ container_undersized 96 0))
      = Raise ValueError)
  /\ (DBPF._index_width (open_dbpf container_undersized_far) = Ok 0
      /\ fst (DBPF._index_entries (open_dbpf container_undersized_far)
                                  (at_ container_undersized_far 96 0))
         = Raise OSError).
Proof.
  split.
  - destruct (undersized_index_value_error false (open_ container_undersized)
                (at_ container_undersized 96 0)
                (open_dbpf container_undersized) ltac:(by_evaluation)
                (at_ container_undersized 96 0)
                ltac:(by_evaluation) ltac:(by_evaluation))
      as (Hw & Hv & _).
    split; [exact Hw|]. apply Hv. left. by_evaluation.
  - destruct (undersized_index_value_error false
                (open_ container_undersized_far)
                (at_ container_undersized_far 96 0)
                (open_dbpf container_undersized_far) ltac:(by_evaluation)
                (at_ container_undersized_far 96 0)
                ltac:(by_evaluation) ltac:(by_evaluation))
      as (Hw & _ & Ho).
    split; [exact Hw|]. apply Ho. split; by_evaluation.
Defined.

Lemma version_on_ints_witness :
  Util.version 2 (-1) = Raise ValueError
  /\ Util.version 2 1
     = Ok (round_quot (2 * 10 ^ ndigits 1 + 1) (10 ^ ndigits 1))
  /\ Util.version (-2) 1
     = Ok (SFopp (round_quot (- -2 * 10 ^ ndigits 1 + 1) (10 ^ ndigits 1))).
Proof.
  destruct (version_on_ints 2 (-1) ltac:(by_evaluation) ltac:(by_evaluation))
    as (H1 & _ & _).
  destruct (version_on_ints 2 1 ltac:(by_evaluation) ltac:(by_evaluation))
    as (_ & H2 & _).
  destruct (version_on_ints (-2) 1 ltac:(by_evaluation) ltac:(by_evaluation))
    as (_ & _ & H3).
  split; [apply H1; lia|]. split; [apply H2; lia | apply H3; lia].
Defined.

Lemma record_invariants_witness :
  Forall (fun r =>
            unsigned 32 (Record_.offset r)
            /\ unsigned 32 (Record_.length r)
            /\ Record_.raw r
               = firstn (Z.to_nat (Record_.length r))
                        (skipn (Z.to_nat (Record_.offset r)) container_truncated)
            /\ Z.of_nat (List.length (Record_.raw r))
               = Z.min (Record_.length r)
                       (Z.max 0 (Z.of_nat (List.length container_truncated)
                                 - Record_.offset r)))
         [ {| Record_.tgi := TGI.TGI 10 20 30; Record_.offset := 132;
              Record_.length := 50;
              Record_.raw := [x61; x62; x63; x64; x65] |} ].
Proof.
  apply (record_invariants (open_dbpf container_truncated)
                           (at_ container_truncated 96 0)).
  by_evaluation.
Defined.
